(** * Bus activity timer: session log, aggregation and CSV export

    A shallow embedding of [src/app/page.tsx].  The React component keeps
    three pieces of state ([currentActivity], [timeEntries], [startTime]);
    the click handler is a transition on that state, and the aggregator and
    the exporter are read-side views of [timeEntries].

    Conventions of the embedding.
    - Timestamps are the integral time values that [Date.now()] returns; they
      and the integer arithmetic on them (differences, sums, [%], [Math.floor]
      of a quotient) live in [Z], which is what the double arithmetic of the
      source computes on safe integers (magnitude below 2^53).
    - [Date.now()] is an input: every function that samples the clock takes
      the sampled value as the argument [now].
    - One click is one transition: the functional updates queued by the
      handler are applied, in order, to the state the handler was rendered
      with.
    - One read-side computation (an export, an aggregation) runs at one clock
      value [now].
    - The quotient [d / total * 100] and [toFixed(1)] are computed on IEEE 754
      binary64 numbers, as specified by [SpecFloat] with precision 53 and
      maximal exponent 1024. *)

From Stdlib Require Import ZArith List String Ascii Bool Lia.
From Stdlib Require Import DecimalString DecimalZ DecimalPos.
From Stdlib Require Import Floats.SpecFloat.
From Stdlib Require Import Reals Lra.
From Stdlib Require Import Permutation.
Import ListNotations.
Open Scope Z_scope.

(** ** Data model *)

(** [type Activity = 'moving' | 'traffic' | 'dwelling' | null] *)
Inductive Activity : Type := moving | traffic | dwelling | null.

(** [type TimeEntry = { activity; startTime; endTime: number | null }] *)
Record TimeEntry : Type := mkEntry {
  activity : Activity;
  startTime : Z;
  endTime : option Z
}.

(** The component state.  [st_startTime] is the [startTime] state variable
    (the name [startTime] is taken by the entry field). *)
Record State : Type := mkState {
  currentActivity : Activity;
  timeEntries : list TimeEntry;
  st_startTime : option Z
}.

(** [useState(null)], [useState([])], [useState(null)] *)
Definition initialState : State := mkState null [] None.

Definition Activity_eqb (a b : Activity) : bool :=
  match a, b with
  | moving, moving | traffic, traffic | dwelling, dwelling | null, null => true
  | _, _ => false
  end.

(** JavaScript truthiness of an [Activity]: the three labels are non-empty
    strings, [null] is falsy. *)
Definition truthy (a : Activity) : bool :=
  match a with null => false | _ => true end.

Definition isOpen (entry : TimeEntry) : bool :=
  match endTime entry with None => true | Some _ => false end.

(** ** The click handler (lines 47-69) *)

(** [entry.endTime === null ? { ...entry, endTime: now } : entry] *)
Definition closeEntry (now : Z) (entry : TimeEntry) : TimeEntry :=
  match endTime entry with
  | None => mkEntry (activity entry) (startTime entry) (Some now)
  | Some _ => entry
  end.

Definition handleActivityClick (act : Activity) (now : Z) (s : State) : State :=
  let ended :=
    if truthy (currentActivity s)
    then map (closeEntry now) (timeEntries s)
    else timeEntries s in
  if negb (Activity_eqb act (currentActivity s)) then
    mkState act
            (ended ++ [mkEntry act now None])
            (match st_startTime s with None => Some now | Some t => Some t end)
  else
    mkState null ended (st_startTime s).

(** The three buttons of the page are the only callers of the handler
    (lines 175, 181, 187). *)
Inductive Button : Type := MovingButton | TrafficButton | DwellingButton.

Definition buttonActivity (b : Button) : Activity :=
  match b with
  | MovingButton => moving
  | TrafficButton => traffic
  | DwellingButton => dwelling
  end.

Definition onClick (b : Button) (now : Z) (s : State) : State :=
  handleActivityClick (buttonActivity b) now s.

(** A session: a sequence of clicks, each with the clock value it sampled. *)
Definition Click : Type := (Button * Z)%type.

Definition run (clicks : list Click) (s : State) : State :=
  fold_left (fun st c => onClick (fst c) (snd c) st) clicks s.

(** The states observed after each click, in order. *)
Fixpoint trace (clicks : list Click) (s : State) : list State :=
  match clicks with
  | [] => []
  | c :: rest =>
      let s' := onClick (fst c) (snd c) s in
      s' :: trace rest s'
  end.

(** Sequences of raw handler calls, where [null] may be passed too. *)
Definition runRaw (calls : list (Activity * Z)) (s : State) : State :=
  fold_left (fun st c => handleActivityClick (fst c) (snd c) st) calls s.

(** ** Predicates on logs *)

Definition openCount (log : list TimeEntry) : nat :=
  List.length (filter isOpen log).

Definition validActivity (a : Activity) : Prop := a <> null.

Definition noneOpen (log : list TimeEntry) : Prop :=
  Forall (fun e => isOpen e = false) log.

(** The invariant that ties the cached activity to the log: in [Idle] every
    entry is closed; in [Active a] the last entry is the open one, for [a],
    and every entry before it is closed. *)
Definition consistent (s : State) : Prop :=
  match currentActivity s with
  | null => noneOpen (timeEntries s)
  | a => exists body t0,
      timeEntries s = body ++ [mkEntry a t0 None] /\ noneOpen body
  end.

(** Adjacent entries [e1], [e2]: ordered starts, and no overlap once [e1]
    is closed. *)
Definition inOrder (e1 e2 : TimeEntry) : Prop :=
  startTime e1 <= startTime e2 /\
  (forall t, endTime e1 = Some t -> t <= startTime e2).

Fixpoint chained (log : list TimeEntry) : Prop :=
  match log with
  | e1 :: ((e2 :: _) as rest) => inOrder e1 e2 /\ chained rest
  | _ => True
  end.

Fixpoint nondecreasing (ts : list Z) : Prop :=
  match ts with
  | t1 :: ((t2 :: _) as rest) => t1 <= t2 /\ nondecreasing rest
  | _ => True
  end.

(** Every timestamp recorded in the log is at most [T]. *)
Definition bounded (T : Z) (log : list TimeEntry) : Prop :=
  Forall (fun e => startTime e <= T /\
                   forall t, endTime e = Some t -> t <= T) log.

(** The invariant of a session whose clock never went backwards. *)
Definition ordered (T : Z) (s : State) : Prop :=
  consistent s /\ chained (timeEntries s) /\ bounded T (timeEntries s).

(** ** The state machine of the specification (section 4.1) *)

Inductive Machine : Type := Idle | Active (a : Activity).

Definition machineOf (s : State) : Machine :=
  match currentActivity s with
  | null => Idle
  | a => Active a
  end.

(** "Close the open entry": in [Active] the open entry is the one appended
    last. *)
Definition closeLast (now : Z) (log : list TimeEntry) : list TimeEntry :=
  match rev log with
  | [] => []
  | e :: front => rev front ++ [mkEntry (activity e) (startTime e) (Some now)]
  end.

Definition openEntry (a : Activity) (now : Z) : TimeEntry := mkEntry a now None.

(** The three transitions, as the specification words them. *)
Definition specSelect (a : Activity) (now : Z) (m : Machine * list TimeEntry)
  : Machine * list TimeEntry :=
  match fst m with
  | Idle => (Active a, snd m ++ [openEntry a now])
  | Active cur =>
      if Activity_eqb a cur
      then (Idle, closeLast now (snd m))
      else (Active a, closeLast now (snd m) ++ [openEntry a now])
  end.

(** ** Strings *)

Local Open Scope string_scope.

(** [Number.prototype.toString] on an integer (below 10^21 in magnitude):
    the decimal digits, with a leading minus sign when negative. *)
Definition toString (n : Z) : string := NilZero.string_of_int (Z.to_int n).

Fixpoint repeatChar (c : ascii) (n : nat) : string :=
  match n with
  | O => ""
  | S n' => String c (repeatChar c n')
  end.

(** [s.padStart(targetLength, c)] for a one-character pad string. *)
Definition padStart (targetLength : nat) (c : ascii) (s : string) : string :=
  if (String.length s <? targetLength)%nat
  then repeatChar c (targetLength - String.length s) ++ s
  else s.

(** The template literal [`${entry.activity}`]. *)
Definition activityString (a : Activity) : string :=
  match a with
  | moving => "moving"
  | traffic => "traffic"
  | dwelling => "dwelling"
  | null => "null"
  end.

(** [Array.prototype.join] *)
Definition join (sep : string) (parts : list string) : string :=
  String.concat sep parts.

Definition newline : string := String (ascii_of_nat 10) "".

(** ** The exporter (lines 81-97) *)

(** [entry.endTime || Date.now()]: [null] and [0] are falsy. *)
Definition orNow (endTime : option Z) (now : Z) : Z :=
  match endTime with
  | None => now
  | Some t => if (t =? 0)%Z then now else t
  end.

(** [Math.floor(duration / 60000)], [Math.floor((duration % 60000) / 1000)],
    [duration % 1000]: [%] takes the sign of the dividend ([Z.rem]) and
    [Math.floor] of a quotient is [Z.div]. *)
Definition formatDuration (startTime endTime : Z) : string :=
  let duration := endTime - startTime in
  let minutes := duration / 60000 in
  let seconds := Z.rem duration 60000 / 1000 in
  let milliseconds := Z.rem duration 1000 in
  toString minutes ++ ":" ++ padStart 2 "0" (toString seconds)
    ++ "." ++ padStart 3 "0" (toString milliseconds).

Definition headers : list string :=
  ["activity_type"; "start_time"; "end_time"; "duration"].

(** The row of one entry.  [formatTimeForCSV] is [toLocaleTimeString] of the
    host, with the en-US twelve-hour options; it is a parameter here. *)
Definition csvRow (formatTimeForCSV : Z -> string) (now : Z) (entry : TimeEntry)
  : string :=
  let endTime := orNow (endTime entry) now in
  let duration := formatDuration (startTime entry) endTime in
  activityString (activity entry) ++ "," ++ formatTimeForCSV (startTime entry)
    ++ "," ++ formatTimeForCSV endTime ++ "," ++ duration.

(** The [csv] text built by [exportToCSV]. *)
Definition exportToCSV (formatTimeForCSV : Z -> string)
    (timeEntries : list TimeEntry) (now : Z) : string :=
  let rows := map (csvRow formatTimeForCSV now) timeEntries in
  join newline (join "," headers :: rows).

(** ** The live clock (lines 22-45) *)

(** The string the interval callback sets for a clock value [now], when the
    effect ran for state [s].  [None] stands for the [TypeError] of reading
    [startTime] of [timeEntries[-1]], which is [undefined] on an empty log. *)
Definition elapsedTime (s : State) (now : Z) : option string :=
  if truthy (currentActivity s) then
    match nth_error (timeEntries s) (List.length (timeEntries s) - 1) with
    | Some entry =>
        let elapsed := now - startTime entry in
        let minutes := elapsed / 60000 in
        let seconds := Z.rem elapsed 60000 / 1000 in
        let milliseconds := Z.rem elapsed 1000 in
        Some (padStart 2 "0" (toString minutes) ++ ":"
              ++ padStart 2 "0" (toString seconds) ++ "."
              ++ padStart 3 "0" (toString milliseconds))
    | None => None
    end
  else Some "00:00.000".

(** ** The format of the specification (section 4.3) *)

Definition digitChar (d : Z) : ascii := ascii_of_nat (48 + Z.to_nat d).

Definition twoDigits (n : Z) : string :=
  String (digitChar (n / 10)) (String (digitChar (n mod 10)) "").

Definition threeDigits (n : Z) : string :=
  String (digitChar (n / 100)) (twoDigits (n mod 100)).

(** "minutes:seconds.milliseconds", minutes unpadded, two digits of seconds,
    three digits of milliseconds, for a duration of [d] milliseconds. *)
Definition specDuration (d : Z) : string :=
  toString (d / 60000) ++ ":" ++ twoDigits (d / 1000 mod 60)
    ++ "." ++ threeDigits (d mod 1000).

(** The effective end and duration of an entry at [now] (section 4.2): the
    recorded end if the entry is closed, [now] if it is open. *)
Definition effectiveEnd (entry : TimeEntry) (now : Z) : Z :=
  match endTime entry with
  | Some t => t
  | None => now
  end.

Definition effectiveDuration (entry : TimeEntry) (now : Z) : Z :=
  effectiveEnd entry now - startTime entry.

(** ** The aggregator (lines 132-153) *)

(** JavaScript numbers where the source divides: IEEE 754 binary64. *)
Definition prec : Z := 53.
Definition emax : Z := 1024.

Definition ofInteger (z : Z) : spec_float := binary_normalize prec emax z 0 false.
Definition numDiv (x y : spec_float) : spec_float := SFdiv prec emax x y.
Definition numMul (x y : spec_float) : spec_float := SFmul prec emax x y.

(** The three accumulators of [calculateDurations]. *)
Record Durations : Type := mkDurations {
  dur_moving : Z;
  dur_traffic : Z;
  dur_dwelling : Z
}.

(** [if (entry.activity) durations[entry.activity] += duration] *)
Definition addDuration (durations : Durations) (a : Activity) (duration : Z)
  : Durations :=
  match a with
  | moving => mkDurations (dur_moving durations + duration)
                          (dur_traffic durations) (dur_dwelling durations)
  | traffic => mkDurations (dur_moving durations)
                           (dur_traffic durations + duration)
                           (dur_dwelling durations)
  | dwelling => mkDurations (dur_moving durations) (dur_traffic durations)
                            (dur_dwelling durations + duration)
  | null => durations
  end.

Definition entryDuration (now : Z) (entry : TimeEntry) : Z :=
  orNow (endTime entry) now - startTime entry.

(** The [forEach] loop. *)
Definition sumDurations (timeEntries : list TimeEntry) (now : Z) : Durations :=
  fold_left (fun durations entry =>
               addDuration durations (activity entry) (entryDuration now entry))
            timeEntries (mkDurations 0 0 0).

Definition totalDuration (durations : Durations) : Z :=
  dur_moving durations + dur_traffic durations + dur_dwelling durations.

(** The digits of [n] tenths: the integer part, a point, one decimal. *)
Definition fixed1 (n : Z) : string :=
  toString (n / 10) ++ "." ++ toString (n mod 10).

(** The integer [n] for which [n / 10] is nearest to [m * 2^e], the larger
    one on a tie (step 10 of [Number.prototype.toFixed]). *)
Definition nearestTenths (m : positive) (e : Z) : Z :=
  if (0 <=? e)%Z then 10 * Z.pos m * 2 ^ e
  else (20 * Z.pos m + 2 ^ (- e)) / 2 ^ (1 - e).

Definition atLeast1e21 (m : positive) (e : Z) : bool :=
  if (0 <=? e)%Z then (10 ^ 21 <=? Z.pos m * 2 ^ e)%Z
  else (10 ^ 21 * 2 ^ (- e) <=? Z.pos m)%Z.

(** [x.toFixed(1)].  From 10^21 on [toFixed] falls back to the exponent
    notation of [Number::toString]; that branch is outside the model and
    yields [None]. *)
Definition toFixed1 (x : spec_float) : option string :=
  match x with
  | S754_nan => Some "NaN"
  | S754_infinity false => Some "Infinity"
  | S754_infinity true => Some "-Infinity"
  | S754_zero _ => Some "0.0"
  | S754_finite s m e =>
      if atLeast1e21 m e then None
      else Some ((if s then "-" else "") ++ fixed1 (nearestTenths m e))
  end.

(** [(duration / total * 100).toFixed(1)] *)
Definition share (duration total : Z) : option string :=
  toFixed1 (numMul (numDiv (ofInteger duration) (ofInteger total))
                   (ofInteger 100)).

Record Shares : Type := mkShares {
  share_moving : option string;
  share_traffic : option string;
  share_dwelling : option string
}.

Definition calculateDurations (timeEntries : list TimeEntry) (now : Z) : Shares :=
  let durations := sumDurations timeEntries now in
  let total := totalDuration durations in
  mkShares (share (dur_moving durations) total)
           (share (dur_traffic durations) total)
           (share (dur_dwelling durations) total).


(** ** A reader for the exported text *)

Fixpoint noChar (c : ascii) (s : string) : bool :=
  match s with
  | "" => true
  | String a rest => negb (Ascii.eqb a c) && noChar c rest
  end.

(** Modelled from the spec: the repository has no parser; rows are split on
    newlines and fields on commas, as [String.prototype.split] does. *)
Fixpoint splitOn (c : ascii) (s : string) : list string :=
  match s with
  | "" => [""]
  | String a rest =>
      if Ascii.eqb a c then "" :: splitOn c rest
      else match splitOn c rest with
           | [] => [String a ""]
           | field :: fields => String a field :: fields
           end
  end.

Definition parseInt (s : string) : option Z :=
  option_map Z.of_int (NilZero.int_of_string s).

(** Modelled from the spec: reads "minutes:seconds.milliseconds" back to
    milliseconds. *)
Definition parseDuration (s : string) : option Z :=
  match splitOn ":" s with
  | [minutes; rest] =>
      match splitOn "." rest with
      | [seconds; milliseconds] =>
          match parseInt minutes, parseInt seconds, parseInt milliseconds with
          | Some m, Some sec, Some ms => Some (m * 60000 + sec * 1000 + ms)
          | _, _, _ => None
          end
      | _ => None
      end
  | _ => None
  end.

(** Modelled from the spec: a row has four comma-separated fields; the first
    is the activity label, the last the duration. *)
Definition parseRow (row : string) : option (string * Z) :=
  match splitOn "," row with
  | [label; _; _; duration] =>
      option_map (fun d => (label, d)) (parseDuration duration)
  | _ => None
  end.



(** What [toFixed1] prints for a sign and a number [n] of tenths. *)
Definition signed1 (negative : bool) (n : Z) : string :=
  (if negative then "-" else "") ++ fixed1 n.

Definition tenthsValue (negative : bool) (n : Z) : Z :=
  if negative then - n else n.

(** Reads a number printed with one decimal back, in tenths. *)
Definition readMagnitude1 (s : string) : option Z :=
  match splitOn "." s with
  | [whole; tenth] =>
      match parseInt whole, parseInt tenth with
      | Some w, Some t => Some (w * 10 + t)
      | _, _ => None
      end
  | _ => None
  end.

Definition readFixed1 (s : string) : option Z :=
  match s with
  | String "-" rest => option_map Z.opp (readMagnitude1 rest)
  | _ => readMagnitude1 s
  end.

(** The range in which the quotient of the aggregator is accurate: the
    accumulator is a safe integer and at most 10^11 times the total. *)
Definition shareInRange (duration total : Z) : Prop :=
  Z.abs duration < 2 ^ 53 /\ Z.abs duration <= 10 ^ 11 * total.

Definition optionZ_eqb (x y : option Z) : bool :=
  match x, y with
  | Some a, Some b => (a =? b)%Z
  | None, None => true
  | _, _ => false
  end.

Definition isDigit (c : ascii) : bool :=
  ((48 <=? nat_of_ascii c) && (nat_of_ascii c <=? 57))%nat.

Fixpoint allDigits (s : string) : bool :=
  match s with
  | "" => true
  | String a rest => isDigit a && allDigits rest
  end.

(** An instance of the [formatTimeForCSV] parameter: what
    [toLocaleTimeString('en-US', ...)] prints when the host's zone is UTC. *)
Definition formatTimeUTC (timestamp : Z) : string :=
  let secondOfDay := (timestamp / 1000) mod 86400 in
  let hour := secondOfDay / 3600 in
  let hour12 := if (hour mod 12 =? 0)%Z then 12 else hour mod 12 in
  toString hour12 ++ ":" ++ twoDigits (secondOfDay / 60 mod 60) ++ ":"
    ++ twoDigits (secondOfDay mod 60) ++ " "
    ++ (if (hour <? 12)%Z then "AM" else "PM").


(** An entry that does not end before it starts, and is not closed at
    timestamp 0. *)
Definition wellTimed (now : Z) (entry : TimeEntry) : Prop :=
  endTime entry <> Some 0 /\ startTime entry <= effectiveEnd entry now.

(** The real number denoted by mantissa [m] and exponent [e]. *)
Definition bpow (e : Z) : R := powerRZ 2 e.

Definition F2R (m e : Z) : R := (IZR m * bpow e)%R.

Local Close Scope string_scope.

(** ** Sessions under a steady clock *)

(** The clock never goes backwards during the session, every click happens
    after the epoch, and the log is read at [now], not before the last
    click. *)
Definition steadyClock (clicks : list Click) (now : Z) : Prop :=
  nondecreasing (map snd clicks)
  /\ Forall (fun c => 0 < snd c <= now) clicks.

(** Every timestamp of the log is positive and at most [T], and no entry ends
    before it starts. *)
Definition stamped (T : Z) (log : list TimeEntry) : Prop :=
  Forall (fun e => 0 < startTime e <= T /\
                   forall t, endTime e = Some t -> startTime e <= t <= T) log.

(** The time the aggregator attributes to a log at [now]: the durations of
    the entries that carry an activity. *)
Fixpoint trackedTime (now : Z) (log : list TimeEntry) : Z :=
  match log with
  | [] => 0
  | e :: rest =>
      (if truthy (activity e) then entryDuration now e else 0)
      + trackedTime now rest
  end.

(** ** What the aggregator prints in the corner cases *)



(** ** The file name of the export (line 98) *)

(** [`bus-timing-${iso.split('T')[0]}.csv`], for the text [iso] that
    [new Date().toISOString()] returned.  [split] never returns an empty
    array; the default stands for what the template would print then. *)
Definition fileName (iso : string) : string :=
  ("bus-timing-" ++ hd "undefined" (splitOn "T" iso) ++ ".csv")%string.

(** ** The page (lines 157-229) *)

Definition Button_eqb (b b' : Button) : bool :=
  match b, b' with
  | MovingButton, MovingButton
  | TrafficButton, TrafficButton
  | DwellingButton, DwellingButton => true
  | _, _ => false
  end.

(** [c.toUpperCase()] for one ASCII character: the letters "a" to "z" move
    32 code points down, every other ASCII character is kept. *)
Definition toUpperCase (c : ascii) : ascii :=
  let n := nat_of_ascii c in
  if ((97 <=? n) && (n <=? 122))%nat then ascii_of_nat (n - 32) else c.

(** [s.charAt(0).toUpperCase() + s.slice(1)] (line 168). *)
Definition capitalise (s : string) : string :=
  match s with
  | EmptyString => EmptyString
  | String c rest => String (toUpperCase c) rest
  end.

(** The badge over the buttons (lines 164-171): rendered only while
    [currentActivity] is truthy. *)
Definition badge (s : State) : option string :=
  if truthy (currentActivity s)
  then Some (capitalise (activityString (currentActivity s)))
  else None.

(** The caption of each button (lines 177, 183, 189). *)
Definition buttonLabel (b : Button) (s : State) : string :=
  match b with
  | MovingButton =>
      if Activity_eqb (currentActivity s) moving
      then "Stop Moving" else "Start Moving"
  | TrafficButton =>
      if Activity_eqb (currentActivity s) traffic
      then "Stop Traffic" else "Start Traffic"
  | DwellingButton =>
      if Activity_eqb (currentActivity s) dwelling
      then "Stop Dwelling" else "Start Dwelling"
  end%string.

(** [timeEntries.length > 0 && ...] (line 193): whether the time split and
    the export button are rendered. *)
Definition showsTimeSplit (s : State) : bool :=
  (0 <? List.length (timeEntries s))%nat.

(** ** Handing the file over (lines 101-129) *)

(** The calls of the [try] block that reach the platform, in the order of
    the source. *)
Inductive Call : Type :=
| CallNewFile | CallCanShare | CallShare
| CallCreateObjectURL | CallCreateElement | CallAppendChild
| CallClick | CallRevokeObjectURL | CallRemoveChild.

(** What the code cannot decide: whether [navigator.share] and
    [navigator.canShare] exist, what [canShare] answers for the file, and
    which calls throw (for [share]: its promise rejects). *)
Record Platform : Type := mkPlatform {
  hasShare : bool;
  canShareFiles : bool;
  throws : Call -> bool
}.

(** What the user can observe of an export. *)
Inductive Effect : Type :=
| SharedFile (name content : string)
| DownloadedFile (name content : string)
| LoggedError
| NavigatedTo (url : string).

(** A computation that may throw: the effects so far, and the result unless
    it threw. *)
Definition Attempt (A : Type) : Type := (list Effect * option A)%type.

Definition ret {A : Type} (a : A) : Attempt A := ([], Some a).

Definition bind {A B : Type} (m : Attempt A) (f : A -> Attempt B)
  : Attempt B :=
  match m with
  | (done, Some a) => let (more, r) := f a in (done ++ more, r)
  | (done, None) => (done, None)
  end.

(** One call: it throws with no effect, or completes with [effects]. *)
Definition call (p : Platform) (c : Call) (effects : list Effect)
  : Attempt unit :=
  if throws p c then ([], None) else (effects, Some tt).

(** The share branch (lines 103-113); [true] stands for its [return]. *)
Definition tryShare (p : Platform) (fileName csv : string) : Attempt bool :=
  if hasShare p then
    bind (call p CallNewFile []) (fun _ =>
    bind (call p CallCanShare []) (fun _ =>
    if canShareFiles p then
      bind (call p CallShare [SharedFile fileName csv]) (fun _ => ret true)
    else ret false))
  else ret false.

(** The anchor download (lines 116-124). *)
Definition download (p : Platform) (fileName csv : string) : Attempt unit :=
  bind (call p CallCreateObjectURL []) (fun _ =>
  bind (call p CallCreateElement []) (fun _ =>
  bind (call p CallAppendChild []) (fun _ =>
  bind (call p CallClick [DownloadedFile fileName csv]) (fun _ =>
  bind (call p CallRevokeObjectURL []) (fun _ =>
  call p CallRemoveChild []))))).

Definition tryBlock (p : Platform) (fileName csv : string) : Attempt unit :=
  bind (tryShare p fileName csv) (fun returned =>
  if returned then ret tt else download p fileName csv).

Definition dataURI (encodeURIComponent : string -> string) (csv : string)
  : string :=
  ("data:text/csv;charset=utf-8," ++ encodeURIComponent csv)%string.

(** The [try] block with its [catch] (lines 101-129). *)
Definition deliver (p : Platform) (encodeURIComponent : string -> string)
    (fileName csv : string) : list Effect :=
  match tryBlock p fileName csv with
  | (done, Some _) => done
  | (done, None) =>
      done ++ [LoggedError; NavigatedTo (dataURI encodeURIComponent csv)]
  end.

(** * Proofs *)

(** ** The session log as a state machine *)

Lemma Activity_eqb_eq (a b : Activity) : Activity_eqb a b = true <-> a = b.
Proof. destruct a, b; simpl; split; intro H; congruence. Qed.

Lemma Activity_eqb_refl (a : Activity) : Activity_eqb a a = true.
Proof. now destruct a. Qed.

Lemma buttonActivity_valid (b : Button) : validActivity (buttonActivity b).
Proof. destruct b; discriminate. Qed.

Lemma closeEntry_closed now e : isOpen (closeEntry now e) = false.
Proof.
  unfold closeEntry, isOpen.
  destruct (endTime e) eqn:E; simpl; [rewrite E|]; reflexivity.
Qed.

Lemma closeEntry_id now e : isOpen e = false -> closeEntry now e = e.
Proof. unfold isOpen, closeEntry. destruct (endTime e); congruence. Qed.

Lemma closeEntry_start now e : startTime (closeEntry now e) = startTime e.
Proof. unfold closeEntry. now destruct (endTime e). Qed.

Lemma closeEntry_activity now e : activity (closeEntry now e) = activity e.
Proof. unfold closeEntry. now destruct (endTime e). Qed.

Lemma noneOpen_map_close now log : noneOpen (map (closeEntry now) log).
Proof.
  unfold noneOpen. induction log as [|e log IH]; simpl; constructor; auto.
  apply closeEntry_closed.
Qed.

Lemma map_close_noneOpen now log :
  noneOpen log -> map (closeEntry now) log = log.
Proof.
  induction 1 as [|e log He _ IH]; simpl; [reflexivity|].
  now rewrite IH, closeEntry_id.
Qed.

Lemma noneOpen_app l1 l2 : noneOpen (l1 ++ l2) <-> noneOpen l1 /\ noneOpen l2.
Proof. unfold noneOpen. apply Forall_app. Qed.

Lemma noneOpen_count log : noneOpen log -> openCount log = 0%nat.
Proof.
  unfold openCount.
  induction 1 as [|e log He _ IH]; simpl; [reflexivity|].
  now rewrite He.
Qed.

Lemma openCount_app l1 l2 :
  openCount (l1 ++ l2) = (openCount l1 + openCount l2)%nat.
Proof. unfold openCount. now rewrite filter_app, length_app. Qed.

(** What the handler does to the log when an activity is active and the
    state is consistent: exactly the last entry is closed. *)
Lemma map_close_tail now body a t0 :
  noneOpen body ->
  map (closeEntry now) (body ++ [mkEntry a t0 None])
  = body ++ [mkEntry a t0 (Some now)].
Proof.
  intro Hb. rewrite map_app, (map_close_noneOpen _ _ Hb). reflexivity.
Qed.

Lemma closeLast_tail now body e :
  closeLast now (body ++ [e])
  = body ++ [mkEntry (activity e) (startTime e) (Some now)].
Proof. unfold closeLast. rewrite rev_app_distr. simpl. now rewrite rev_involutive. Qed.

Lemma consistent_initial : consistent initialState.
Proof. constructor. Qed.

Lemma consistent_onClick b now s :
  consistent s -> consistent (onClick b now s).
Proof.
  unfold consistent, onClick, handleActivityClick.
  destruct (currentActivity s) eqn:Ec; intro H;
    (destruct b; simpl;
     try (destruct H as (body & t0 & -> & Hb); rewrite map_close_tail by exact Hb);
     try (eexists _, _; split; [reflexivity|]);
     try (apply noneOpen_app; split; [assumption|]);
     try (repeat constructor; assumption);
     try assumption).
Qed.

Lemma consistent_run clicks s :
  consistent s -> consistent (run clicks s).
Proof.
  revert s. induction clicks as [|c clicks IH]; intros s H; simpl; [exact H|].
  apply IH, consistent_onClick, H.
Qed.

Lemma consistent_trace clicks s :
  consistent s -> Forall consistent (trace clicks s).
Proof.
  revert s. induction clicks as [|c clicks IH]; intros s H; simpl; constructor.
  - now apply consistent_onClick.
  - now apply IH, consistent_onClick.
Qed.

Lemma consistent_openCount s :
  consistent s -> (openCount (timeEntries s) <= 1)%nat.
Proof.
  unfold consistent.
  destruct (currentActivity s); intro H;
    try (destruct H as (body & t0 & -> & Hb);
         rewrite openCount_app, (noneOpen_count _ Hb); cbn; lia).
  rewrite (noneOpen_count _ H). lia.
Qed.

(** Every state of a trace is the result of running a prefix of the clicks. *)
Lemma trace_prefix clicks s s' :
  In s' (trace clicks s) ->
  exists pre post, clicks = pre ++ post /\ pre <> [] /\ s' = run pre s.
Proof.
  revert s. induction clicks as [|c clicks IH]; intros s; simpl; [tauto|].
  intros [<-|Hin].
  - exists [c], clicks. repeat split. discriminate.
  - destruct (IH _ Hin) as (pre & post & -> & _ & ->).
    exists (c :: pre), post. repeat split. discriminate.
Qed.

(** C1. Starting from the empty log, after every click of every sequence of
    clicks at most one entry of the log is open ([endTime = null]). *)
Theorem at_most_one_open_after_every_call (clicks : list Click) :
  Forall (fun s => (openCount (timeEntries s) <= 1)%nat)
         (trace clicks initialState)
  /\ (openCount (timeEntries (run clicks initialState)) <= 1)%nat.
Proof.
  split.
  - eapply Forall_impl; [|apply consistent_trace, consistent_initial].
    intros s. apply consistent_openCount.
  - apply consistent_openCount, consistent_run, consistent_initial.
Qed.

Lemma consistent_current_valid clicks :
  currentActivity (run clicks initialState) = null \/
  exists b, currentActivity (run clicks initialState) = buttonActivity b.
Proof.
  induction clicks as [|c clicks IH] using rev_ind; [now left|].
  unfold run. rewrite fold_left_app. simpl. fold (run clicks initialState).
  unfold onClick, handleActivityClick.
  destruct (negb _); simpl; [right; now exists (fst c) | now left].
Qed.

Lemma app_last_inj {A} (l1 l2 : list A) (x y : A) :
  l1 ++ [x] = l2 ++ [y] -> l1 = l2 /\ x = y.
Proof. intro H. apply app_inj_tail in H. exact H. Qed.

Lemma noneOpen_In log :
  noneOpen log <-> (forall e, In e log -> endTime e <> None).
Proof.
  unfold noneOpen. rewrite Forall_forall. unfold isOpen.
  split; intros H e Hin; specialize (H e Hin);
    destruct (endTime e); congruence.
Qed.

Lemma tail_open_iff (a a' : Activity) body t0 :
  a = a' <->
  exists body' e, body ++ [mkEntry a t0 None] = body' ++ [e]
                  /\ endTime e = None /\ activity e = a'.
Proof.
  split.
  - intros <-. exists body, (mkEntry a t0 None). now repeat split.
  - intros (body' & e & Hlog & _ & Hact).
    apply app_last_inj in Hlog as [_ <-]. exact Hact.
Qed.

Lemma tail_open_not_noneOpen a body t0 :
  ~ noneOpen (body ++ [mkEntry a t0 None]).
Proof.
  intro Hn. apply noneOpen_app in Hn as [_ Hn].
  inversion Hn as [|? ? Hopen _]. discriminate.
Qed.

(** C4. After every sequence of clicks the cached [currentActivity] agrees
    with the log: it is a (non-null) activity [a] exactly when the log is
    non-empty and its last entry is open with activity [a], and it is [null]
    exactly when no entry of the log is open. *)
Theorem currentActivity_agrees_with_log_tail (clicks : list Click) :
  let s := run clicks initialState in
  (forall a, a <> null ->
     (currentActivity s = a <->
      exists body e, timeEntries s = body ++ [e]
                     /\ endTime e = None /\ activity e = a))
  /\ (currentActivity s = null <->
      forall e, In e (timeEntries s) -> endTime e <> None).
Proof.
  intros s.
  assert (Hc : consistent s) by apply consistent_run, consistent_initial.
  unfold consistent in Hc. rewrite <- noneOpen_In.
  destruct (currentActivity s) eqn:Ec.
  1-3: destruct Hc as (body & t0 & Hlog & Hb); rewrite Hlog; split;
    [ intros a Ha; apply tail_open_iff
    | split; [discriminate | intro Hn; now apply tail_open_not_noneOpen in Hn] ].
  split; [|tauto].
  intros a Ha. split; [congruence|].
  intros (body & e & Hlog & Hopen & _).
  rewrite Hlog in Hc. apply noneOpen_app in Hc as [_ Hc].
  inversion Hc as [|? ? He _]. unfold isOpen in He. rewrite Hopen in He.
  discriminate.
Qed.

(** C2. On every reachable state the handler is the transition function of
    the specification: with one sampled [now], from [Idle] it appends the open
    entry for [a]; from [Active a] it closes the open entry at [now] and goes
    to [Idle]; from [Active a] with another [b] it closes the open entry at
    [now] and appends the open entry for [b] at the same [now]. *)
Theorem handler_refines_spec_transition
    (clicks : list Click) (b : Button) (now : Z) :
  let s := run clicks initialState in
  let s' := onClick b now s in
  (machineOf s', timeEntries s')
  = specSelect (buttonActivity b) now (machineOf s, timeEntries s).
Proof.
  intros s s'.
  assert (Hc : consistent s) by apply consistent_run, consistent_initial.
  subst s'. unfold consistent in Hc.
  unfold onClick, handleActivityClick, specSelect, machineOf.
  destruct (currentActivity s) eqn:Ec; simpl fst; simpl snd;
    try (destruct Hc as (body & t0 & -> & Hb);
         rewrite map_close_tail by exact Hb; rewrite closeLast_tail);
    destruct b; reflexivity.
Qed.

(** The three cases of C2 spelled out on a consistent state. *)
Lemma onClick_from_idle b now s :
  currentActivity s = null ->
  onClick b now s
  = mkState (buttonActivity b)
            (timeEntries s ++ [mkEntry (buttonActivity b) now None])
            (match st_startTime s with None => Some now | Some t => Some t end).
Proof.
  intro H. unfold onClick, handleActivityClick. rewrite H.
  now destruct b.
Qed.

Lemma onClick_same_activity b now body t0 st0 :
  noneOpen body ->
  onClick b now (mkState (buttonActivity b)
                         (body ++ [mkEntry (buttonActivity b) t0 None]) st0)
  = mkState null (body ++ [mkEntry (buttonActivity b) t0 (Some now)]) st0.
Proof.
  intro Hb. unfold onClick, handleActivityClick. simpl.
  rewrite Activity_eqb_refl, map_close_tail by exact Hb.
  now destruct b.
Qed.

Lemma onClick_other_activity a b now body t0 st0 :
  noneOpen body -> a <> null -> a <> buttonActivity b ->
  onClick b now (mkState a (body ++ [mkEntry a t0 None]) st0)
  = mkState (buttonActivity b)
            (body ++ [mkEntry a t0 (Some now);
                      mkEntry (buttonActivity b) now None])
            (match st0 with None => Some now | Some t => Some t end).
Proof.
  intros Hb Ha Hab. unfold onClick, handleActivityClick. simpl.
  rewrite map_close_tail by exact Hb.
  destruct (Activity_eqb (buttonActivity b) a) eqn:E.
  - apply Activity_eqb_eq in E. congruence.
  - destruct a; try congruence; simpl; now rewrite <- app_assoc.
Qed.

(** ** Validity of the recorded activities *)

Lemma valid_onClick b now s :
  Forall (fun e => validActivity (activity e)) (timeEntries s) ->
  Forall (fun e => validActivity (activity e)) (timeEntries (onClick b now s)).
Proof.
  intro H. unfold onClick, handleActivityClick.
  assert (Hended : Forall (fun e => validActivity (activity e))
                     (if truthy (currentActivity s)
                      then map (closeEntry now) (timeEntries s)
                      else timeEntries s)).
  { destruct (truthy _); [|exact H].
    rewrite Forall_map. eapply Forall_impl; [|exact H].
    intros e He. now rewrite closeEntry_activity. }
  destruct (negb _); simpl; [|exact Hended].
  apply Forall_app. split; [exact Hended|].
  constructor; [apply buttonActivity_valid | constructor].
Qed.

(** C9 (as the code has it). The handler validates nothing, but the page only
    ever calls it from its three buttons: for every sequence of clicks, every
    entry of the log carries one of the three activities. *)
Theorem reachable_log_has_valid_activities (clicks : list Click) :
  Forall (fun e => validActivity (activity e))
         (timeEntries (run clicks initialState)).
Proof.
  induction clicks as [|c clicks IH] using rev_ind; [constructor|].
  unfold run. rewrite fold_left_app. simpl.
  now apply valid_onClick.
Qed.

(** C9, counterexample. [null] belongs to the handler's parameter type and is
    not rejected: passed while an activity is active, it closes that entry
    and appends an open entry whose activity is [null]. *)
Lemma null_selection_enters_the_log :
  let s := runRaw [(moving, 1000); (null, 2000)] initialState in
  timeEntries s = [mkEntry moving 1000 (Some 2000); mkEntry null 2000 None]
  /\ ~ Forall (fun e => validActivity (activity e)) (timeEntries s).
Proof.
  split; [reflexivity|].
  intro H. cbn in H.
  inversion H as [|? ? _ Hrest]. inversion Hrest as [|? ? Hnull _].
  now apply Hnull.
Qed.

(** ** Ordering of the log under a non-decreasing clock *)

Lemma bounded_weaken T T' log : T <= T' -> bounded T log -> bounded T' log.
Proof.
  intros HT H. eapply Forall_impl; [|exact H].
  intros e [Hs He]. split; [lia|]. intros t Ht. specialize (He t Ht). lia.
Qed.

Lemma chained_snoc T log e :
  chained log -> bounded T log -> T <= startTime e -> chained (log ++ [e]).
Proof.
  induction log as [|e1 [|e2 rest] IH]; intros Hc Hb HT; simpl; auto.
  - inversion Hb as [|? ? [Hs He] _]. repeat split; [lia|].
    intros t Ht. specialize (He t Ht). lia.
  - destruct Hc as [H12 Hc]. split; [exact H12|].
    apply IH; [exact Hc | now inversion Hb | exact HT].
Qed.

Lemma chained_replace_last body e e' :
  startTime e' = startTime e ->
  chained (body ++ [e]) -> chained (body ++ [e']).
Proof.
  intro Hs. induction body as [|e1 [|e2 rest] IH]; simpl; auto.
  - intros [[Hst Hend] _]. repeat split; [lia | intros t Ht; rewrite Hs; auto].
  - intros [H12 Hc]. split; [exact H12 | exact (IH Hc)].
Qed.

Lemma chained_adjacent log i e1 e2 :
  chained log ->
  nth_error log i = Some e1 -> nth_error log (S i) = Some e2 ->
  inOrder e1 e2.
Proof.
  revert i. induction log as [|x [|y rest] IH]; intros i Hc H1 H2.
  - now destruct i.
  - destruct i as [|[|i]]; discriminate.
  - destruct Hc as [Hxy Hc]. destruct i as [|i].
    + simpl in H1, H2. congruence.
    + apply (IH i Hc); assumption.
Qed.

(** The entries left by the "end the current activity" half of the handler. *)
Lemma ended_ordered T now s :
  ordered T s -> T <= now ->
  let ended := if truthy (currentActivity s)
               then map (closeEntry now) (timeEntries s)
               else timeEntries s in
  noneOpen ended /\ chained ended /\ bounded now ended.
Proof.
  intros (Hc & Hch & Hb) HT. unfold consistent in Hc.
  destruct (currentActivity s) eqn:Ec; simpl.
  1-3: destruct Hc as (body & t0 & Hlog & Hbody); rewrite Hlog in *;
    rewrite map_close_tail by exact Hbody;
    apply Forall_app in Hb as [Hb1 Hb2];
    inversion Hb2 as [|? ? [Hs _] _]; simpl in Hs;
    (split; [apply noneOpen_app; split; [exact Hbody | repeat constructor]|]);
    (split; [eapply chained_replace_last; [|exact Hch]; reflexivity|]);
    apply Forall_app; split; [eapply bounded_weaken; eassumption|];
    constructor; [|constructor]; simpl; split; [lia|];
    intros t [= <-]; lia.
  repeat split; [exact Hc | exact Hch | eapply bounded_weaken; eassumption].
Qed.

Lemma ordered_onClick T b now s :
  ordered T s -> T <= now -> ordered now (onClick b now s).
Proof.
  intros Ho HT.
  destruct (ended_ordered T now s Ho HT) as (Hn & Hch & Hb).
  split; [apply consistent_onClick, Ho|].
  unfold onClick, handleActivityClick.
  destruct (negb _); simpl; [|now split].
  split.
  - eapply chained_snoc; [exact Hch | exact Hb | simpl; lia].
  - apply Forall_app. split; [exact Hb|].
    constructor; [|constructor]. simpl. split; [lia | discriminate].
Qed.

Lemma ordered_run clicks : forall T s,
  ordered T s -> nondecreasing (T :: map snd clicks) ->
  exists T', ordered T' (run clicks s).
Proof.
  induction clicks as [|c clicks IH]; intros T s Ho Hnd.
  - now exists T.
  - simpl in Hnd. destruct Hnd as [HT Hnd].
    simpl. apply (IH (snd c)); [|exact Hnd].
    now apply (ordered_onClick T).
Qed.

Lemma ordered_initial T : ordered T initialState.
Proof. repeat split; constructor. Qed.

Lemma chained_run clicks :
  nondecreasing (map snd clicks) ->
  chained (timeEntries (run clicks initialState)).
Proof.
  intro Hnd.
  destruct clicks as [|c clicks]; [exact I|].
  destruct (ordered_run (c :: clicks) (snd c) initialState) as (T' & _ & H & _).
  - apply ordered_initial.
  - split; [lia | exact Hnd].
  - exact H.
Qed.

(** Closed entries are never touched again, and an entry keeps its place,
    its activity and its start time for the rest of the session. *)
Lemma onClick_keeps_closed b now s i e :
  nth_error (timeEntries s) i = Some e -> isOpen e = false ->
  nth_error (timeEntries (onClick b now s)) i = Some e.
Proof.
  intros Hi He. unfold onClick, handleActivityClick.
  assert (Hended : nth_error (if truthy (currentActivity s)
                              then map (closeEntry now) (timeEntries s)
                              else timeEntries s) i = Some e).
  { destruct (truthy _); [|exact Hi].
    rewrite nth_error_map, Hi. simpl. now rewrite closeEntry_id. }
  destruct (negb _); simpl; [|exact Hended].
  rewrite nth_error_app1; [exact Hended|].
  apply nth_error_Some. congruence.
Qed.

Lemma onClick_keeps_start b now s i e :
  nth_error (timeEntries s) i = Some e ->
  exists e', nth_error (timeEntries (onClick b now s)) i = Some e'
             /\ startTime e' = startTime e /\ activity e' = activity e.
Proof.
  intros Hi. unfold onClick, handleActivityClick.
  assert (Hended : exists e',
             nth_error (if truthy (currentActivity s)
                        then map (closeEntry now) (timeEntries s)
                        else timeEntries s) i = Some e'
             /\ startTime e' = startTime e /\ activity e' = activity e).
  { destruct (truthy _); [|now exists e].
    exists (closeEntry now e). rewrite nth_error_map, Hi.
    now rewrite closeEntry_start, closeEntry_activity. }
  destruct Hended as (e' & Hn & Hs & Ha). exists e'.
  destruct (negb _); simpl; [|now repeat split].
  rewrite nth_error_app1; [now repeat split|].
  apply nth_error_Some. congruence.
Qed.

Lemma run_keeps_closed clicks : forall s i e,
  nth_error (timeEntries s) i = Some e -> isOpen e = false ->
  nth_error (timeEntries (run clicks s)) i = Some e.
Proof.
  induction clicks as [|c clicks IH]; intros s i e Hi He; [exact Hi|].
  simpl. apply IH; [|exact He]. now apply onClick_keeps_closed.
Qed.

Lemma run_keeps_start clicks : forall s i e,
  nth_error (timeEntries s) i = Some e ->
  exists e', nth_error (timeEntries (run clicks s)) i = Some e'
             /\ startTime e' = startTime e /\ activity e' = activity e.
Proof.
  induction clicks as [|c clicks IH]; intros s i e Hi; [now exists e|].
  simpl.
  destruct (onClick_keeps_start (fst c) (snd c) s i e Hi) as (e1 & H1 & Hs1 & Ha1).
  destruct (IH _ _ _ H1) as (e2 & H2 & Hs2 & Ha2).
  exists e2. repeat split; congruence.
Qed.

Lemma run_app pre post s : run (pre ++ post) s = run post (run pre s).
Proof. unfold run. apply fold_left_app. Qed.

(** The hand-off step: switching from the active [a] to another activity
    leaves, at the end of the log, the entry of [a] closed at [now] followed
    by the new entry opened at the same [now]. *)
Lemma switch_tail b now s :
  consistent s ->
  currentActivity s <> null -> currentActivity s <> buttonActivity b ->
  let n := List.length (timeEntries s) in
  exists e1 e2,
    nth_error (timeEntries (onClick b now s)) (pred n) = Some e1
    /\ nth_error (timeEntries (onClick b now s)) n = Some e2
    /\ activity e1 = currentActivity s /\ endTime e1 = Some now
    /\ activity e2 = buttonActivity b /\ startTime e2 = now
    /\ endTime e2 = None.
Proof.
  intros Hc Hnn Hne n. subst n.
  destruct s as [a log st0]. unfold consistent in Hc. simpl in *.
  assert (Hlog : exists body t0,
             log = body ++ [mkEntry a t0 None] /\ noneOpen body)
    by (destruct a; try exact Hc; congruence).
  destruct Hlog as (body & t0 & -> & Hb).
  rewrite (onClick_other_activity a b now body t0 st0 Hb Hnn Hne).
  cbn [timeEntries currentActivity].
  rewrite length_app. cbn [List.length]. rewrite Nat.add_1_r. cbn [pred].
  exists (mkEntry a t0 (Some now)), (mkEntry (buttonActivity b) now None).
  split; [|split].
  - rewrite nth_error_app2 by lia. now rewrite Nat.sub_diag.
  - rewrite nth_error_app2 by lia.
    now replace (S (List.length body) - List.length body)%nat with 1%nat by lia.
  - now repeat split.
Qed.

(** C5. If the clock values sampled by the clicks never decrease, the log is
    ordered by start time and an entry starts no earlier than the end of the
    closed entry before it; and whenever a click selected another activity
    while one was active, the entry it closed ends exactly where the entry it
    opened starts, in every later log. *)
Theorem log_ordered_and_handoff_has_zero_gap (clicks : list Click) :
  nondecreasing (map snd clicks) ->
  let log := timeEntries (run clicks initialState) in
  (forall i e1 e2,
     nth_error log i = Some e1 -> nth_error log (S i) = Some e2 ->
     startTime e1 <= startTime e2 /\
     (forall t, endTime e1 = Some t -> t <= startTime e2))
  /\
  (forall pre b now post,
     clicks = pre ++ (b, now) :: post ->
     let s := run pre initialState in
     currentActivity s <> null -> currentActivity s <> buttonActivity b ->
     let i := List.length (timeEntries s) in
     exists e1 e2,
       nth_error log (pred i) = Some e1 /\ nth_error log i = Some e2
       /\ activity e1 = currentActivity s
       /\ activity e2 = buttonActivity b
       /\ endTime e1 = Some now /\ startTime e2 = now
       /\ endTime e1 = Some (startTime e2)).
Proof.
  intros Hnd log. split.
  - intros i e1 e2 H1 H2.
    exact (chained_adjacent log i e1 e2 (chained_run clicks Hnd) H1 H2).
  - intros pre b now post -> s Hnn Hne i. subst log.
    rewrite run_app. simpl. fold s.
    assert (Hc : consistent s) by apply consistent_run, consistent_initial.
    destruct (switch_tail b now s Hc Hnn Hne)
      as (e1 & e2 & H1 & H2 & Ha1 & He1 & Ha2 & Hs2 & _).
    fold i in H1, H2.
    assert (Hclosed : isOpen e1 = false) by (unfold isOpen; now rewrite He1).
    pose proof (run_keeps_closed post _ _ _ H1 Hclosed) as K1.
    destruct (run_keeps_start post _ _ _ H2) as (e2' & K2 & Ks & Ka).
    exists e1, e2'. repeat split; try assumption; congruence.
Qed.

Lemma log_ordered_and_handoff_witness :
  nondecreasing (map snd [(MovingButton, 0); (TrafficButton, 60000);
                          (TrafficButton, 90000)])
  /\ timeEntries (run [(MovingButton, 0); (TrafficButton, 60000);
                       (TrafficButton, 90000)] initialState)
     = [mkEntry moving 0 (Some 60000); mkEntry traffic 60000 (Some 90000)]
  /\ exists e1 e2,
       nth_error (timeEntries (run [(MovingButton, 0); (TrafficButton, 60000);
                                    (TrafficButton, 90000)] initialState)) 0
       = Some e1
       /\ nth_error (timeEntries (run [(MovingButton, 0); (TrafficButton, 60000);
                                       (TrafficButton, 90000)] initialState)) 1
          = Some e2
       /\ endTime e1 = Some (startTime e2).
Proof.
  assert (Hnd : nondecreasing (map snd [(MovingButton, 0); (TrafficButton, 60000);
                                        (TrafficButton, 90000)]))
    by (simpl; lia).
  split; [exact Hnd|]. split; [reflexivity|].
  destruct (proj2 (log_ordered_and_handoff_has_zero_gap _ Hnd)
              [(MovingButton, 0)] TrafficButton 60000 [(TrafficButton, 90000)]
              eq_refl)
    as (e1 & e2 & H1 & H2 & _ & _ & _ & _ & H);
    [discriminate | discriminate |].
  exists e1, e2. repeat split; assumption.
Defined.


(** ** The live clock *)

(** The effect reads [timeEntries[timeEntries.length - 1]] whenever an
    activity is active; on every reachable state that entry exists, so the
    callback never fails, and with no activity the display is reset. *)
Lemma elapsedTime_defined (clicks : list Click) (now : Z) :
  let s := run clicks initialState in
  elapsedTime s now <> None
  /\ (currentActivity s = null -> elapsedTime s now = Some "00:00.000"%string).
Proof.
  intros s.
  assert (Hc : consistent s) by apply consistent_run, consistent_initial.
  unfold consistent in Hc. unfold elapsedTime.
  destruct (currentActivity s) eqn:Ec; cbn [truthy].
  1-3: destruct Hc as (body & t0 & -> & _);
    rewrite length_app, Nat.add_sub, nth_error_app2, Nat.sub_diag by lia;
    split; [discriminate | discriminate].
  split; [discriminate | reflexivity].
Qed.

(** ** The exporter *)

Local Open Scope string_scope.

Example formatDuration_example : formatDuration 1000 188045 = "3:07.045".
Proof. reflexivity. Qed.

(** A property checked on every integer below [n] holds below [n]. *)
Lemma checked_below (P : Z -> bool) (n : nat) :
  forallb P (map Z.of_nat (seq 0 n)) = true ->
  forall k, (0 <= k < Z.of_nat n)%Z -> P k = true.
Proof.
  intros H k Hk. rewrite forallb_forall in H. apply H.
  rewrite <- (Z2Nat.id k) by lia. apply in_map, in_seq. lia.
Qed.

Lemma padStart_two_digits k :
  (0 <= k < 100)%Z -> padStart 2 "0" (toString k) = twoDigits k.
Proof.
  intro Hk. apply String.eqb_eq.
  apply (checked_below
           (fun k => String.eqb (padStart 2 "0" (toString k)) (twoDigits k))
           100); [vm_compute; reflexivity | exact Hk].
Qed.

Lemma padStart_three_digits k :
  (0 <= k < 1000)%Z -> padStart 3 "0" (toString k) = threeDigits k.
Proof.
  intro Hk. apply String.eqb_eq.
  apply (checked_below
           (fun k => String.eqb (padStart 3 "0" (toString k)) (threeDigits k))
           1000); [vm_compute; reflexivity | exact Hk].
Qed.

Lemma seconds_of_duration d :
  (0 <= d)%Z -> (Z.rem d 60000 / 1000 = d / 1000 mod 60)%Z.
Proof.
  intro Hd. rewrite Z.rem_mod_nonneg by lia.
  Z.to_euclidean_division_equations. lia.
Qed.

Lemma formatDuration_nonneg s e :
  (s <= e)%Z -> formatDuration s e = specDuration (e - s).
Proof.
  intro H. unfold formatDuration, specDuration.
  rewrite seconds_of_duration by lia.
  rewrite (Z.rem_mod_nonneg (e - s) 1000) by lia.
  rewrite padStart_two_digits
    by (pose proof (Z.mod_pos_bound ((e - s) / 1000) 60); lia).
  rewrite padStart_three_digits by (apply Z.mod_pos_bound; lia).
  reflexivity.
Qed.

Lemma append_empty_r (s : string) : s ++ "" = s.
Proof. induction s as [|a s IH]; simpl; [reflexivity | now rewrite IH]. Qed.

Lemma append_assoc (s1 s2 s3 : string) : (s1 ++ s2) ++ s3 = s1 ++ (s2 ++ s3).
Proof. induction s1 as [|a s1 IH]; simpl; [reflexivity | now rewrite IH]. Qed.

Lemma join_rows header rows :
  join newline (header :: rows)
  = header ++ String.concat "" (map (fun row => newline ++ row) rows).
Proof.
  unfold join. revert header.
  induction rows as [|row rows IH]; intro header; simpl.
  - now rewrite append_empty_r.
  - rewrite <- IH. now destruct rows.
Qed.

(** C7. For every log and [now], the exported text is the header row
    [activity_type,start_time,end_time,duration] followed by one row per
    entry, in log order (the header alone for the empty log).  A row is the
    activity label, the two formatted times and the duration, separated by
    commas; the label of an activity is its lowercase name, and the duration
    is minutes, a colon, seconds padded to two digits, a point, milliseconds
    padded to three digits: for a non-negative duration [d], the decimal
    digits of [d / 60000], two digits for [d / 1000 mod 60] and three digits
    for [d mod 1000]. *)
Theorem serialize_header_and_rows
    (formatTimeForCSV : Z -> string) (log : list TimeEntry) (now : Z) :
  exportToCSV formatTimeForCSV log now
  = "activity_type,start_time,end_time,duration"
    ++ String.concat ""
         (map (fun e => newline ++ csvRow formatTimeForCSV now e) log)
  /\ exportToCSV formatTimeForCSV [] now
     = "activity_type,start_time,end_time,duration"
  /\ Forall
       (fun e =>
          let stop := orNow (endTime e) now in
          let d := (stop - startTime e)%Z in
          exists label duration,
            csvRow formatTimeForCSV now e
            = label ++ "," ++ formatTimeForCSV (startTime e) ++ ","
              ++ formatTimeForCSV stop ++ "," ++ duration
            /\ (activity e = moving -> label = "moving")
            /\ (activity e = traffic -> label = "traffic")
            /\ (activity e = dwelling -> label = "dwelling")
            /\ duration
               = toString (d / 60000) ++ ":"
                 ++ padStart 2 "0" (toString (Z.rem d 60000 / 1000)) ++ "."
                 ++ padStart 3 "0" (toString (Z.rem d 1000))
            /\ ((0 <= d)%Z ->
                duration
                = toString (d / 60000) ++ ":" ++ twoDigits (d / 1000 mod 60)
                  ++ "." ++ threeDigits (d mod 1000)))
       log.
Proof.
  split; [|split].
  - unfold exportToCSV. rewrite join_rows, map_map. reflexivity.
  - reflexivity.
  - apply Forall_forall. intros e _ stop d.
    exists (activityString (activity e)), (formatDuration (startTime e) stop).
    split; [reflexivity|].
    repeat split; try (intros ->; reflexivity).
    intro Hd. subst d. now rewrite formatDuration_nonneg by lia.
Qed.

Lemma serialize_header_and_rows_witness :
  exportToCSV toString [mkEntry moving 1000 (Some 188045)] 200000
  = "activity_type,start_time,end_time,duration" ++ newline
    ++ "moving,1000,188045,3:07.045".
Proof.
  destruct (serialize_header_and_rows toString
              [mkEntry moving 1000 (Some 188045)] 200000)
    as (Htext & _ & Hrows).
  rewrite Htext.
  apply Forall_inv in Hrows.
  destruct Hrows as (label & duration & Hrow & Hm & _ & _ & _ & Hd).
  cbn [map String.concat]. rewrite Hrow, (Hm eq_refl), Hd by (simpl; lia).
  reflexivity.
Defined.

(** ** Entries closed at timestamp 0 *)









(** ** Reading the exported text back *)

Example formatTimeUTC_example :
  formatTimeUTC 1700000000000 = "10:13:20 PM".
Proof. reflexivity. Qed.

Lemma noChar_app c s1 s2 :
  noChar c (s1 ++ s2) = noChar c s1 && noChar c s2.
Proof.
  induction s1 as [|a s1 IH]; simpl; [reflexivity|].
  now rewrite IH, andb_assoc.
Qed.

Lemma splitOn_noChar c s : noChar c s = true -> splitOn c s = [s].
Proof.
  induction s as [|a s IH]; simpl; [reflexivity|].
  intro H. apply andb_prop in H as [Ha Hs].
  destruct (Ascii.eqb a c); [discriminate|].
  now rewrite (IH Hs).
Qed.

Lemma splitOn_app c s1 s2 :
  noChar c s1 = true ->
  splitOn c (s1 ++ String c s2) = s1 :: splitOn c s2.
Proof.
  induction s1 as [|a s1 IH]; simpl.
  - intros _. now rewrite Ascii.eqb_refl.
  - intro H. apply andb_prop in H as [Ha Hs].
    destruct (Ascii.eqb a c); [discriminate|].
    now rewrite (IH Hs).
Qed.

Lemma splitOn_rows c header rows :
  noChar c header = true ->
  Forall (fun row => noChar c row = true) rows ->
  splitOn c (header
             ++ String.concat "" (map (fun row => String c "" ++ row) rows))
  = header :: rows.
Proof.
  intros Hh Hrows. revert header Hh.
  induction Hrows as [|row rows Hrow _ IH]; intros header Hh.
  - simpl. rewrite append_empty_r. now apply splitOn_noChar.
  - assert (E : String.concat ""
                  (map (fun row => String c "" ++ row) (row :: rows))
                = String c (row ++ String.concat ""
                                     (map (fun row => String c "" ++ row) rows))).
    { simpl. destruct rows; simpl; [now rewrite append_empty_r | reflexivity]. }
    rewrite E, splitOn_app by exact Hh.
    now rewrite IH.
Qed.

Lemma allDigits_noChar c s :
  isDigit c = false -> allDigits s = true -> noChar c s = true.
Proof.
  intros Hc. induction s as [|a s IH]; simpl; [reflexivity|].
  intro H. apply andb_prop in H as [Ha Hs].
  rewrite (IH Hs), andb_true_r.
  destruct (Ascii.eqb_spec a c); [congruence | reflexivity].
Qed.

Lemma allDigits_uint d : allDigits (NilEmpty.string_of_uint d) = true.
Proof. induction d; simpl; auto. Qed.

Lemma toString_allDigits n : (0 <= n)%Z -> allDigits (toString n) = true.
Proof.
  intro Hn. unfold toString. destruct n as [|p|p]; [reflexivity| |lia].
  simpl. unfold NilZero.string_of_uint.
  pose proof (allDigits_uint (Pos.to_uint p)) as H.
  now destruct (Pos.to_uint p).
Qed.

Lemma twoDigits_allDigits n :
  (0 <= n < 100)%Z -> allDigits (twoDigits n) = true.
Proof.
  apply (checked_below (fun n => allDigits (twoDigits n)) 100).
  vm_compute. reflexivity.
Qed.

Lemma threeDigits_allDigits n :
  (0 <= n < 1000)%Z -> allDigits (threeDigits n) = true.
Proof.
  apply (checked_below (fun n => allDigits (threeDigits n)) 1000).
  vm_compute. reflexivity.
Qed.

Lemma parseInt_toString n : parseInt (toString n) = Some n.
Proof.
  unfold parseInt, toString.
  rewrite NilZero.isi.
  - simpl. now rewrite DecimalZ.of_to.
  - destruct n; simpl; try discriminate.
    intros [= H]. now apply Unsigned.to_uint_nonnil in H.
  - destruct n; simpl; try discriminate.
    intros [= H]. now apply Unsigned.to_uint_nonnil in H.
Qed.

Lemma optionZ_eqb_eq x y : optionZ_eqb x y = true -> x = y.
Proof.
  destruct x, y; simpl; try discriminate; [|reflexivity].
  intro H. apply Z.eqb_eq in H. now subst.
Qed.

Lemma parseInt_twoDigits n :
  (0 <= n < 100)%Z -> parseInt (twoDigits n) = Some n.
Proof.
  intro Hn. apply optionZ_eqb_eq.
  apply (checked_below
           (fun n => optionZ_eqb (parseInt (twoDigits n)) (Some n)) 100);
    [vm_compute; reflexivity | exact Hn].
Qed.

Lemma parseInt_threeDigits n :
  (0 <= n < 1000)%Z -> parseInt (threeDigits n) = Some n.
Proof.
  intro Hn. apply optionZ_eqb_eq.
  apply (checked_below
           (fun n => optionZ_eqb (parseInt (threeDigits n)) (Some n)) 1000);
    [vm_compute; reflexivity | exact Hn].
Qed.


Lemma parseDuration_specDuration d :
  (0 <= d)%Z -> parseDuration (specDuration d) = Some d.
Proof.
  intro Hd. unfold parseDuration, specDuration.
  assert (Hs : (0 <= d / 1000 mod 60 < 100)%Z)
    by (pose proof (Z.mod_pos_bound (d / 1000) 60); lia).
  assert (Hms : (0 <= d mod 1000 < 1000)%Z) by (apply Z.mod_pos_bound; lia).
  assert (Hm : (0 <= d / 60000)%Z) by (apply Z.div_pos; lia).
  change (toString (d / 60000) ++ ":" ++
          twoDigits (d / 1000 mod 60) ++ "." ++ threeDigits (d mod 1000))
    with (toString (d / 60000)
          ++ String ":" (twoDigits (d / 1000 mod 60)
                         ++ String "." (threeDigits (d mod 1000)))).
  rewrite splitOn_app
    by (apply allDigits_noChar; [reflexivity | now apply toString_allDigits]).
  rewrite splitOn_noChar.
  2:{ rewrite noChar_app.
      rewrite (allDigits_noChar ":" (twoDigits _) eq_refl)
        by now apply twoDigits_allDigits.
      cbn [noChar andb Ascii.eqb Bool.eqb negb].
      rewrite (allDigits_noChar ":" (threeDigits _) eq_refl)
        by now apply threeDigits_allDigits.
      reflexivity. }
  rewrite splitOn_app
    by (apply allDigits_noChar; [reflexivity | now apply twoDigits_allDigits]).
  rewrite splitOn_noChar
    by (apply allDigits_noChar; [reflexivity | now apply threeDigits_allDigits]).
  rewrite parseInt_toString, parseInt_twoDigits, parseInt_threeDigits
    by assumption.
  f_equal. Z.to_euclidean_division_equations. lia.
Qed.

Lemma activityString_noChar c a :
  noChar c "movingtrafficdwellingnull" = true ->
  noChar c (activityString a) = true.
Proof.
  intro H. cbn [noChar] in H.
  repeat (apply andb_prop in H; destruct H as [?H H]).
  destruct a; cbn [activityString noChar];
    repeat (apply andb_true_intro; split); assumption || reflexivity.
Qed.

Lemma orNow_wellTimed now e :
  wellTimed now e -> orNow (endTime e) now = effectiveEnd e now.
Proof.
  unfold wellTimed, effectiveEnd, orNow.
  destruct (endTime e) as [t|]; [|reflexivity].
  intros [Hz _]. destruct (Z.eqb_spec t 0); [congruence | reflexivity].
Qed.

Section RoundTrip.

Variable formatTimeForCSV : Z -> string.
Hypothesis no_comma : forall t, noChar "," (formatTimeForCSV t) = true.
Hypothesis no_newline :
  forall t, noChar (ascii_of_nat 10) (formatTimeForCSV t) = true.





End RoundTrip.

Lemma formatTimeUTC_noChar c t :
  isDigit c = false -> noChar c ": APM" = true ->
  noChar c (formatTimeUTC t) = true.
Proof.
  intros Hc H. cbn [noChar] in H.
  repeat (apply andb_prop in H; destruct H as [?H H]).
  unfold formatTimeUTC.
  set (sod := ((t / 1000) mod 86400)%Z).
  assert (Hsod : (0 <= sod < 86400)%Z) by (apply Z.mod_pos_bound; lia).
  set (hour12 := if (sod / 3600 mod 12 =? 0)%Z then 12%Z
                 else (sod / 3600 mod 12)%Z).
  assert (Hh : (0 <= hour12)%Z).
  { subst hour12. destruct (_ =? _)%Z; [lia|].
    apply Z.mod_pos_bound. lia. }
  rewrite !noChar_app.
  rewrite (allDigits_noChar c (toString hour12) Hc (toString_allDigits _ Hh)).
  rewrite !(allDigits_noChar c (twoDigits _) Hc)
    by (apply twoDigits_allDigits;
        match goal with
        | |- (0 <= ?x mod 60 < 100)%Z =>
            pose proof (Z.mod_pos_bound x 60); lia
        end).
  destruct (_ <? _)%Z; cbn [noChar];
    repeat (apply andb_true_intro; split); assumption || reflexivity.
Qed.



(** Outside these conditions the duration field is not the text of the
    duration: a clock that went back two seconds between the two clicks
    exports a row that reads as minus sixty-two seconds. *)
Example negative_duration_row :
  csvRow toString 9000 (mkEntry moving 5000 (Some 3000))
  = "moving,5000,3000,-1:-2.000"
  /\ parseRow (csvRow toString 9000 (mkEntry moving 5000 (Some 3000)))
     = Some ("moving", (-62000)%Z).
Proof. split; reflexivity. Qed.

Local Close Scope string_scope.

(** ** Binary64 arithmetic *)

Lemma fexp_binary64 e : fexp prec emax e = Z.max (e - 53) (-1074).
Proof. reflexivity. Qed.

Lemma digits2_pos_bounds (p : positive) :
  2 ^ (Z.pos (digits2_pos p) - 1) <= Z.pos p < 2 ^ Z.pos (digits2_pos p).
Proof.
  induction p as [p IH|p IH|]; cbn [digits2_pos].
  - rewrite Pos2Z.inj_succ.
    replace (Z.succ (Z.pos (digits2_pos p)) - 1)
      with (Z.succ (Z.pos (digits2_pos p) - 1)) by lia.
    rewrite !Z.pow_succ_r by lia. lia.
  - rewrite Pos2Z.inj_succ.
    replace (Z.succ (Z.pos (digits2_pos p)) - 1)
      with (Z.succ (Z.pos (digits2_pos p) - 1)) by lia.
    rewrite !Z.pow_succ_r by lia. lia.
  - simpl. lia.
Qed.

Lemma digits2_pos_unique (p : positive) (n : Z) :
  2 ^ (n - 1) <= Z.pos p < 2 ^ n -> Z.pos (digits2_pos p) = n.
Proof.
  intros [Hlo Hhi]. destruct (digits2_pos_bounds p) as [Dlo Dhi].
  assert (Hn : 0 < n).
  { destruct (Z_lt_le_dec 0 n) as [|Hle]; [assumption|].
    exfalso. destruct (Z.eq_dec n 0) as [->|].
    - simpl in Hhi. lia.
    - rewrite (Z.pow_neg_r 2 n) in Hhi by lia. lia. }
  destruct (Z_lt_le_dec (Z.pos (digits2_pos p)) n) as [Hlt|Hge].
  - exfalso.
    assert (2 ^ Z.pos (digits2_pos p) <= 2 ^ (n - 1))
      by (apply Z.pow_le_mono_r; lia).
    lia.
  - destruct (Z_lt_le_dec n (Z.pos (digits2_pos p))) as [Hlt|Hle]; [|lia].
    exfalso.
    assert (2 ^ n <= 2 ^ (Z.pos (digits2_pos p) - 1))
      by (apply Z.pow_le_mono_r; lia).
    lia.
Qed.

Lemma shr_1_m mrs :
  0 <= shr_m mrs -> shr_m (shr_1 mrs) = shr_m mrs / 2 /\ 0 <= shr_m (shr_1 mrs).
Proof.
  destruct mrs as [m r s]. cbn [shr_m]. intro Hm.
  rewrite <- Z.div2_div.
  destruct m as [|[p|p|]|p]; cbn [shr_1 shr_m Z.div2];
    (split; [reflexivity | lia]) || lia.
Qed.

Lemma iter_shr_1_m (p : positive) : forall mrs,
  0 <= shr_m mrs ->
  shr_m (SpecFloat.iter_pos shr_1 p mrs) = shr_m mrs / 2 ^ Z.pos p
  /\ 0 <= shr_m (SpecFloat.iter_pos shr_1 p mrs).
Proof.
  induction p as [p IH|p IH|]; intros mrs Hm; cbn [SpecFloat.iter_pos].
  - destruct (shr_1_m mrs Hm) as [E1 P1].
    destruct (IH _ P1) as [E2 P2]. destruct (IH _ P2) as [E3 P3].
    split; [|exact P3]. rewrite E3, E2, E1.
    rewrite !Z.div_div by (try apply Z.pow_pos_nonneg; lia).
    f_equal. rewrite (Pos2Z.inj_xI p).
    replace (2 * Z.pos p + 1) with (1 + Z.pos p + Z.pos p) by lia.
    rewrite !Z.pow_add_r by lia. lia.
  - destruct (IH _ Hm) as [E2 P2]. destruct (IH _ P2) as [E3 P3].
    split; [|exact P3]. rewrite E3, E2.
    rewrite !Z.div_div by (try apply Z.pow_pos_nonneg; lia).
    f_equal. rewrite (Pos2Z.inj_xO p).
    replace (2 * Z.pos p) with (Z.pos p + Z.pos p) by lia.
    rewrite !Z.pow_add_r by lia. lia.
  - destruct (shr_1_m mrs Hm) as [E1 P1]. split; [|exact P1].
    rewrite E1. reflexivity.
Qed.

(** Shifting to the target exponent divides the mantissa by a power of two. *)
Lemma shr_fexp_m m e l :
  0 <= m ->
  let n := Z.max 0 (fexp prec emax (Zdigits2 m + e) - e) in
  shr_m (fst (shr_fexp prec emax m e l)) = m / 2 ^ n
  /\ snd (shr_fexp prec emax m e l) = e + n.
Proof.
  intros Hm n. subst n. unfold shr_fexp, shr.
  assert (Hrec : shr_m (shr_record_of_loc m l) = m)
    by (destruct l as [|[| |]]; reflexivity).
  destruct (fexp prec emax (Zdigits2 m + e) - e) as [|p|p] eqn:En;
    cbn [fst snd].
  - rewrite Hrec. simpl. rewrite Z.div_1_r. split; [reflexivity | lia].
  - rewrite Z.max_r by lia.
    destruct (iter_shr_1_m p (shr_record_of_loc m l)) as [E _];
      [rewrite Hrec; exact Hm|].
    rewrite E, Hrec. split; reflexivity.
  - rewrite Z.max_l by lia. rewrite Hrec. simpl. rewrite Z.div_1_r.
    split; [reflexivity | lia].
Qed.

Lemma round_nearest_even_bounds m l :
  m <= round_nearest_even m l <= m + 1.
Proof.
  unfold round_nearest_even.
  destruct l as [|[| |]]; try destruct (Z.even m); lia.
Qed.

Lemma pow2_pos n : 0 <= n -> 0 < 2 ^ n.
Proof. intro Hn. apply Z.pow_pos_nonneg; lia. Qed.

Lemma pow2_split a b : 0 <= a -> 0 <= b -> 2 ^ (a + b) = 2 ^ a * 2 ^ b.
Proof. intros. apply Z.pow_add_r; assumption. Qed.

(** Rounding a mantissa of at least 53 bits: the result is a normal number
    whose mantissa, put back at the original exponent, differs from the input
    mantissa by at most one unit of the last kept bit. *)
Lemma binary_round_aux_normal s (p : positive) e l :
  let d := Z.pos (digits2_pos p) in
  53 <= d -> -1074 <= e -> e + d - 52 <= 971 ->
  exists m' k,
    binary_round_aux prec emax s (Z.pos p) e l = S754_finite s m' (e + k)
    /\ d - 53 <= k <= d - 52
    /\ 2 ^ 52 <= Z.pos m' < 2 ^ 53
    /\ Z.abs (Z.pos m' * 2 ^ k - Z.pos p) <= 2 ^ (d - 53)
    /\ 2 ^ 52 * 2 ^ (d - 53) <= Z.pos p.
Proof.
  intros d Hd He Hmax.
  destruct (digits2_pos_bounds p) as [Plo Phi]. fold d in Plo, Phi.
  set (N := d - 53) in *.
  assert (HN : 0 <= N) by (subst N; lia).
  assert (P2N : 0 < 2 ^ N) by now apply pow2_pos.
  replace (d - 1) with (52 + N) in Plo by (subst N; lia).
  replace d with (53 + N) in Phi by (subst N; lia).
  rewrite pow2_split in Plo, Phi by lia.
  unfold binary_round_aux.
  destruct (shr_fexp_m (Z.pos p) e l) as [M1 E1]; [lia|].
  cbn [Zdigits2] in M1, E1. fold d in M1, E1.
  rewrite fexp_binary64 in M1, E1.
  replace (Z.max 0 (Z.max (d + e - 53) (-1074) - e)) with N in M1, E1
    by (subst N; lia).
  destruct (shr_fexp prec emax (Z.pos p) e l) as [mrs' e'].
  cbn [fst snd] in M1, E1. subst e'.
  set (m1 := shr_m mrs') in *.
  assert (Hm1 : 2 ^ 52 <= m1 < 2 ^ 53).
  { rewrite M1. split.
    - apply Z.div_le_lower_bound; lia.
    - apply Z.div_lt_upper_bound; lia. }
  assert (Hp1 : m1 * 2 ^ N <= Z.pos p < (m1 + 1) * 2 ^ N).
  { rewrite M1. pose proof (Z.mul_div_le (Z.pos p) (2 ^ N) P2N).
    pose proof (Z.mul_succ_div_gt (Z.pos p) (2 ^ N) P2N). lia. }
  pose proof (round_nearest_even_bounds m1 (loc_of_shr_record mrs')) as Hr.
  set (mr := round_nearest_even m1 (loc_of_shr_record mrs')) in *.
  assert (Hmr : 0 < mr) by lia.
  destruct (shr_fexp_m mr (e + N) loc_Exact) as [M2 E2]; [lia|].
  destruct mr as [|q|q] eqn:Eq; try lia.
  cbn [Zdigits2] in M2, E2. rewrite fexp_binary64 in M2, E2.
  destruct (shr_fexp prec emax (Z.pos q) (e + N) loc_Exact) as [mrs'' e''].
  cbn [fst snd] in M2, E2.
  assert (Habs : Z.abs (Z.pos q * 2 ^ N - Z.pos p) <= 2 ^ N).
  { assert (Hq : Z.pos q = m1 \/ Z.pos q = m1 + 1) by lia.
    destruct Hq as [-> | ->]; lia. }
  assert (HNd : N = d - 53) by reflexivity.
  destruct (Z_lt_le_dec (Z.pos q) (2 ^ 53)) as [Hlt|Hge].
  - (* the rounded mantissa still has 53 bits *)
    rewrite (digits2_pos_unique q 53) in M2, E2 by (simpl; lia).
    replace (Z.max 0 (Z.max (53 + (e + N) - 53) (-1074) - (e + N))) with 0
      in M2, E2 by lia.
    rewrite Z.pow_0_r, Z.div_1_r in M2. rewrite M2. subst e''.
    replace (e + N + 0 <=? emax - prec) with true
      by (symmetry; apply Z.leb_le; change (emax - prec) with 971; lia).
    exists q, N. repeat split; try lia.
    f_equal. lia.
  - (* the carry went into bit 54 *)
    assert (Hq : Z.pos q = 2 ^ 53) by lia.
    rewrite (digits2_pos_unique q 54) in M2, E2 by (simpl; lia).
    replace (Z.max 0 (Z.max (54 + (e + N) - 53) (-1074) - (e + N))) with 1
      in M2, E2 by lia.
    rewrite Hq in M2. change (2 ^ 53 / 2 ^ 1) with (Z.pos (2 ^ 52)) in M2.
    rewrite M2. subst e''.
    replace (e + N + 1 <=? emax - prec) with true
      by (symmetry; apply Z.leb_le; change (emax - prec) with 971; lia).
    exists (2 ^ 52)%positive, (N + 1). repeat split; try lia.
    + f_equal. lia.
    + rewrite pow2_split, Z.pow_1_r by lia.
      change (Z.pos (2 ^ 52)) with (2 ^ 52).
      rewrite Hq in Habs. lia.
Qed.

(** A 53-bit mantissa at a representable exponent is left as it is. *)
Lemma binary_round_aux_exact s (p : positive) e :
  2 ^ 52 <= Z.pos p < 2 ^ 53 -> -1074 <= e <= 971 ->
  binary_round_aux prec emax s (Z.pos p) e loc_Exact = S754_finite s p e.
Proof.
  intros Hp He.
  assert (Hshr : shr_fexp prec emax (Z.pos p) e loc_Exact
                 = (Build_shr_record (Z.pos p) false false, e)).
  { unfold shr_fexp. cbn [Zdigits2].
    rewrite (digits2_pos_unique p 53) by (simpl; lia).
    rewrite fexp_binary64.
    replace (Z.max (53 + e - 53) (-1074) - e) with 0 by lia.
    reflexivity. }
  unfold binary_round_aux. rewrite Hshr.
  cbn [shr_m loc_of_shr_record round_nearest_even]. rewrite Hshr.
  cbn [shr_m].
  replace (e <=? emax - prec) with true
    by (symmetry; apply Z.leb_le; change (emax - prec) with 971; lia).
  reflexivity.
Qed.

Lemma iter_xO_pow2 (p k : positive) :
  Z.pos (Pos.iter xO p k) = Z.pos p * 2 ^ Z.pos k.
Proof.
  induction k as [|k IH] using Pos.peano_ind.
  - simpl. lia.
  - rewrite Pos.iter_succ, Pos2Z.inj_xO, IH, Pos2Z.inj_succ.
    rewrite Z.pow_succ_r by lia. lia.
Qed.

(** A non-zero integer below 2^53 in magnitude is represented exactly, with
    a 53-bit mantissa. *)
Lemma binary_round_integer (s : bool) (p : positive) :
  Z.pos p < 2 ^ 53 ->
  exists m e,
    binary_round prec emax s p 0 = S754_finite s m e
    /\ 2 ^ 52 <= Z.pos m < 2 ^ 53
    /\ -52 <= e <= 0
    /\ Z.pos m = Z.pos p * 2 ^ (- e).
Proof.
  intros Hlt. unfold binary_round.
  destruct (digits2_pos_bounds p) as [Dlo Dhi].
  set (d := Z.pos (digits2_pos p)) in *.
  assert (Hd : 1 <= d <= 53).
  { split; [subst d; lia|].
    destruct (Z_lt_le_dec 53 d) as [Hbig|]; [|assumption].
    exfalso. assert (2 ^ 53 <= 2 ^ (d - 1)) by (apply Z.pow_le_mono_r; lia).
    lia. }
  rewrite fexp_binary64.
  replace (Z.max (d + 0 - 53) (-1074)) with (d - 53) by lia.
  unfold shl_align. rewrite Z.sub_0_r.
  destruct (d - 53) as [|k|k] eqn:Ek; try lia.
  - assert (d = 53) by lia.
    rewrite binary_round_aux_exact by (replace 52 with (d - 1) by lia;
      replace 53 with d by lia; lia).
    exists p, 0. repeat split; try lia.
    all: replace 52 with (d - 1) by lia; replace 53 with d by lia; lia.
  - assert (Hk : Z.pos k = 53 - d) by lia.
    assert (Hm : 2 ^ 52 <= Z.pos (Pos.iter xO p k) < 2 ^ 53).
    { assert (E52 : 2 ^ 52 = 2 ^ (d - 1) * 2 ^ (53 - d))
        by (rewrite <- pow2_split by lia; f_equal; lia).
      assert (E53 : 2 ^ 53 = 2 ^ d * 2 ^ (53 - d))
        by (rewrite <- pow2_split by lia; f_equal; lia).
      rewrite iter_xO_pow2, Hk, E52, E53.
      pose proof (pow2_pos (53 - d)). nia. }
    rewrite binary_round_aux_exact by (assumption || lia).
    exists (Pos.iter xO p k), (Z.neg k). repeat split; try lia.
    rewrite iter_xO_pow2. reflexivity.
Qed.

Lemma ofInteger_exact z :
  z <> 0 -> Z.abs z < 2 ^ 53 ->
  exists m e,
    ofInteger z = S754_finite (z <? 0) m e
    /\ 2 ^ 52 <= Z.pos m < 2 ^ 53
    /\ -52 <= e <= 0
    /\ Z.pos m = Z.abs z * 2 ^ (- e).
Proof.
  intros Hnz Hlt. destruct z as [|p|p]; [congruence| |];
    unfold ofInteger, binary_normalize; cbn [Z.abs Z.ltb Z.compare] in *;
    now apply binary_round_integer.
Qed.

(** *** Real values of binary64 numbers *)

(** Case analysis on the sign under every absolute value in sight. *)
Ltac split_Rabs :=
  unfold Rabs in *;
  repeat match goal with
         | |- context [Rcase_abs ?x] => destruct (Rcase_abs x)
         | H : context [Rcase_abs ?x] |- _ => destruct (Rcase_abs x)
         end.

Lemma bpow_gt0 e : (0 < bpow e)%R.
Proof. apply powerRZ_lt. lra. Qed.

Lemma bpow_add a b : bpow (a + b) = (bpow a * bpow b)%R.
Proof. apply powerRZ_add. lra. Qed.

Lemma bpow_IZR k : 0 <= k -> bpow k = IZR (2 ^ k).
Proof.
  intro Hk. unfold bpow.
  rewrite <- (Z2Nat.id k) by exact Hk.
  rewrite <- pow_powerRZ, pow_IZR. reflexivity.
Qed.

Lemma bpow_ge1 k : 0 <= k -> (1 <= bpow k)%R.
Proof.
  intro Hk. rewrite bpow_IZR by exact Hk.
  apply IZR_le. pose proof (pow2_pos k Hk). lia.
Qed.

Lemma F2R_shift m e k : 0 <= k -> F2R m (e + k) = F2R (m * 2 ^ k) e.
Proof.
  intro Hk. unfold F2R.
  rewrite bpow_add, mult_IZR, (bpow_IZR k Hk). ring.
Qed.

Lemma IZR_abs_le a b : Z.abs a <= b -> (Rabs (IZR a) <= IZR b)%R.
Proof. intro H. rewrite <- abs_IZR. now apply IZR_le. Qed.

(** The rounding lemma in terms of values: relative error at most 2^-52. *)
Lemma binary_round_aux_value s (p : positive) e l :
  let d := Z.pos (digits2_pos p) in
  53 <= d -> -1074 <= e -> e + d - 52 <= 971 ->
  exists m' e',
    binary_round_aux prec emax s (Z.pos p) e l = S754_finite s m' e'
    /\ 2 ^ 52 <= Z.pos m' < 2 ^ 53
    /\ e <= e' <= e + d - 52
    /\ (Rabs (F2R (Z.pos m') e' - F2R (Z.pos p) e) * IZR (2 ^ 52)
        <= F2R (Z.pos p) e)%R
    /\ (bpow e * IZR (2 ^ 52) <= F2R (Z.pos p) e)%R.
Proof.
  intros d Hd He Hmax.
  destruct (binary_round_aux_normal s p e l Hd He Hmax)
    as (m' & k & Hres & Hk & Hm' & Habs & Hp).
  fold d in Hk, Habs, Hp.
  exists m', (e + k). split; [exact Hres|]. split; [exact Hm'|].
  split; [lia|].
  assert (HN : 0 < 2 ^ (d - 53)) by (apply pow2_pos; lia).
  pose proof (bpow_gt0 e) as Hb.
  rewrite F2R_shift by lia. unfold F2R.
  rewrite <- Rmult_minus_distr_r, <- minus_IZR.
  rewrite Rabs_mult, (Rabs_pos_eq (bpow e)) by lra.
  apply IZR_abs_le in Habs.
  assert (Hp' : (IZR (2 ^ (d - 53)) * IZR (2 ^ 52) <= IZR (Z.pos p))%R)
    by (rewrite <- mult_IZR; apply IZR_le; lia).
  assert (H1 : (1 <= IZR (2 ^ (d - 53)))%R) by (apply IZR_le; lia).
  assert (H52 : (0 < IZR (2 ^ 52))%R) by (apply IZR_lt; lia).
  set (A := Rabs (IZR (Z.pos m' * 2 ^ k - Z.pos p))) in *.
  set (B := IZR (2 ^ (d - 53))) in *.
  set (C := IZR (2 ^ 52)) in *.
  set (P := IZR (Z.pos p)) in *.
  split.
  - apply Rle_trans with (B * C * bpow e)%R.
    + replace (A * bpow e * C)%R with (A * (C * bpow e))%R by ring.
      replace (B * C * bpow e)%R with (B * (C * bpow e))%R by ring.
      apply Rmult_le_compat_r; [|exact Habs].
      apply Rmult_le_pos; lra.
    + apply Rmult_le_compat_r; lra.
  - apply Rle_trans with (B * C * bpow e)%R.
    + replace (bpow e * C)%R with (1 * C * bpow e)%R by ring.
      apply Rmult_le_compat_r; [lra|].
      apply Rmult_le_compat_r; lra.
    + apply Rmult_le_compat_r; lra.
Qed.

Lemma digits2_pos_lower (p : positive) n :
  2 ^ n <= Z.pos p -> n < Z.pos (digits2_pos p).
Proof.
  intro H. destruct (digits2_pos_bounds p) as [_ Hhi].
  destruct (Z_lt_le_dec n (Z.pos (digits2_pos p))) as [|Hle]; [assumption|].
  exfalso.
  assert (2 ^ Z.pos (digits2_pos p) <= 2 ^ n) by (apply Z.pow_le_mono_r; lia).
  lia.
Qed.

Lemma digits2_pos_upper (p : positive) n :
  0 <= n -> Z.pos p < 2 ^ n -> Z.pos (digits2_pos p) <= n.
Proof.
  intros Hn H. destruct (digits2_pos_bounds p) as [Hlo _].
  destruct (Z_lt_le_dec n (Z.pos (digits2_pos p))) as [Hlt|]; [|assumption].
  exfalso.
  assert (2 ^ n <= 2 ^ (Z.pos (digits2_pos p) - 1))
    by (apply Z.pow_le_mono_r; lia).
  lia.
Qed.

Lemma bpow_opp e : bpow (- e) = (/ bpow e)%R.
Proof. apply powerRZ_neg'. Qed.

(** The integer quotient and exponent that [SFdiv] rounds, for two 53-bit
    mantissas. *)
Lemma SFdiv_core_binary_53 (md mt : positive) ed et :
  2 ^ 52 <= Z.pos md < 2 ^ 53 -> 2 ^ 52 <= Z.pos mt < 2 ^ 53 ->
  -1000 <= ed - et <= 1000 ->
  SFdiv_core_binary prec emax (Z.pos md) ed (Z.pos mt) et
  = (Z.pos md * 2 ^ 53 / Z.pos mt, ed - et - 53,
     new_location (Z.pos mt) ((Z.pos md * 2 ^ 53) mod Z.pos mt)).
Proof.
  intros Hd Ht He. unfold SFdiv_core_binary. cbn [Zdigits2].
  rewrite (digits2_pos_unique md 53), (digits2_pos_unique mt 53)
    by (simpl; lia).
  rewrite fexp_binary64.
  replace (Z.min (Z.max (53 + ed - (53 + et) - 53) (-1074)) (ed - et))
    with (ed - et - 53) by lia.
  replace (ed - et - (ed - et - 53)) with 53 by lia.
  cbv iota. rewrite Z.shiftl_mul_pow2 by lia.
  unfold Z.div, Z.modulo.
  destruct (Z.div_eucl (Z.pos md * 2 ^ 53) (Z.pos mt)) as [q r].
  reflexivity.
Qed.

(** Dividing a non-zero integer by a positive one, both below 2^53 in
    magnitude: the quotient is a normal number with the sign of the dividend,
    within relative error 2^-51 of the exact quotient. *)
Lemma numDiv_integers d T :
  d <> 0 -> Z.abs d < 2 ^ 53 -> 0 < T < 2 ^ 53 ->
  exists m e,
    numDiv (ofInteger d) (ofInteger T) = S754_finite (d <? 0) m e
    /\ 2 ^ 52 <= Z.pos m < 2 ^ 53
    /\ -200 <= e <= 100
    /\ (Rabs (F2R (Z.pos m) e - IZR (Z.abs d) / IZR T) * IZR (2 ^ 51)
        <= IZR (Z.abs d) / IZR T)%R.
Proof.
  intros Hnz Hd HT.
  destruct (ofInteger_exact d Hnz Hd) as (md & ed & Ed & Hmd & Hed & Vd).
  destruct (ofInteger_exact T) as (mt & et & Et & Hmt & Het & Vt); try lia.
  replace (T <? 0) with false in Et by (symmetry; apply Z.ltb_ge; lia).
  rewrite (Z.abs_eq T) in Vt by lia.
  rewrite Ed, Et. unfold numDiv, SFdiv.
  rewrite SFdiv_core_binary_53 by (assumption || lia).
  set (q := Z.pos md * 2 ^ 53 / Z.pos mt).
  assert (Hq : 2 ^ 52 <= q < 2 ^ 54).
  { subst q. split.
    - apply Z.div_le_lower_bound; [lia|]. nia.
    - apply Z.div_lt_upper_bound; [lia|]. nia. }
  destruct q as [|pq|pq] eqn:Eq; try lia.
  assert (Dlo : 52 < Z.pos (digits2_pos pq)) by (apply digits2_pos_lower; lia).
  assert (Dhi : Z.pos (digits2_pos pq) <= 54)
    by (apply digits2_pos_upper; lia).
  destruct (binary_round_aux_value (xorb (d <? 0) false) pq (ed - et - 53)
              (new_location (Z.pos mt) ((Z.pos md * 2 ^ 53) mod Z.pos mt)))
    as (m & e & Hres & Hm & He & Herr & Hulp); try lia.
  rewrite xorb_false_r in Hres |- *.
  exists m, e. split; [exact Hres|]. split; [exact Hm|]. split; [lia|].
  (* the exact quotient lies between q and q + 1 units of the exponent *)
  set (e0 := ed - et - 53) in *.
  set (X := (IZR (Z.abs d) / IZR T)%R).
  assert (HTpos : (0 < IZR T)%R) by (apply IZR_lt; lia).
  assert (Hmtpos : (0 < IZR (Z.pos mt))%R) by (apply IZR_lt; lia).
  assert (HX : X = (IZR (Z.pos md * 2 ^ 53) / IZR (Z.pos mt) * bpow e0)%R).
  { subst X e0.
    replace (ed - et - 53) with (ed + (- et) + (- (53))) by lia.
    rewrite !bpow_add.
    assert (Bd : (IZR (Z.pos md) = IZR (Z.abs d) * bpow (- ed))%R)
      by (rewrite Vd, mult_IZR, <- (bpow_IZR (- ed)) by lia; reflexivity).
    assert (Bt : (IZR (Z.pos mt) = IZR T * bpow (- et))%R)
      by (rewrite Vt, mult_IZR, <- (bpow_IZR (- et)) by lia; reflexivity).
    rewrite mult_IZR, <- (bpow_IZR 53), Bd, Bt by lia.
    rewrite (bpow_opp ed), (bpow_opp 53).
    pose proof (bpow_gt0 (- et)). pose proof (bpow_gt0 53).
    pose proof (bpow_gt0 ed).
    field. repeat split; lra. }
  assert (Hquot : (IZR (Z.pos pq) <= IZR (Z.pos md * 2 ^ 53) / IZR (Z.pos mt)
                   < IZR (Z.pos pq) + 1)%R).
  { assert (Hz : Z.pos pq * Z.pos mt <= Z.pos md * 2 ^ 53
                 < (Z.pos pq + 1) * Z.pos mt).
    { rewrite <- Eq.
      pose proof (Z.mul_div_le (Z.pos md * 2 ^ 53) (Z.pos mt)).
      pose proof (Z.mul_succ_div_gt (Z.pos md * 2 ^ 53) (Z.pos mt)).
      lia. }
    destruct Hz as [Hz1 Hz2].
    apply IZR_le in Hz1. apply IZR_lt in Hz2.
    rewrite (mult_IZR (Z.pos pq)) in Hz1.
    rewrite (mult_IZR (Z.pos pq + 1)), plus_IZR in Hz2.
    split.
    - apply Rmult_le_reg_r with (IZR (Z.pos mt)); [lra|].
      unfold Rdiv. rewrite Rmult_assoc, Rinv_l by lra. lra.
    - apply Rmult_lt_reg_r with (IZR (Z.pos mt)); [lra|].
      unfold Rdiv. rewrite Rmult_assoc, Rinv_l by lra. lra. }
  pose proof (bpow_gt0 e0) as Hb.
  set (Q := (IZR (Z.pos md * 2 ^ 53) / IZR (Z.pos mt))%R) in *.
  unfold F2R in Herr, Hulp |- *.
  set (Y := (IZR (Z.pos m) * bpow e)%R) in *.
  set (P := IZR (Z.pos pq)) in *.
  set (B := bpow e0) in *.
  change (IZR (2 ^ 52)) with 4503599627370496%R in Herr, Hulp.
  change (IZR (2 ^ 51)) with 2251799813685248%R.
  rewrite HX.
  assert (HPB : (P * B <= Q * B < P * B + B)%R) by nra.
  split_Rabs; nra.
Qed.

Lemma ofInteger_hundred :
  ofInteger 100 = S754_finite false 7036874417766400 (-46).
Proof. reflexivity. Qed.

(** Multiplying a normal number by 100: relative error at most 2^-52. *)
Lemma numMul_hundred (s : bool) (m : positive) e :
  2 ^ 52 <= Z.pos m < 2 ^ 53 -> -200 <= e <= 100 ->
  exists m' e',
    numMul (S754_finite s m e) (ofInteger 100) = S754_finite s m' e'
    /\ 2 ^ 52 <= Z.pos m' < 2 ^ 53
    /\ (Rabs (F2R (Z.pos m') e' - 100 * F2R (Z.pos m) e) * IZR (2 ^ 52)
        <= 100 * F2R (Z.pos m) e)%R.
Proof.
  intros Hm He. rewrite ofInteger_hundred. unfold numMul, SFmul.
  set (M := 7036874417766400%positive).
  assert (HM : Z.pos M = 100 * 2 ^ 46) by reflexivity.
  assert (Hprod : 2 ^ 104 <= Z.pos (m * M) < 2 ^ 106).
  { rewrite Pos2Z.inj_mul, HM.
    change (2 ^ 104) with (2 ^ 52 * (64 * 2 ^ 46)).
    change (2 ^ 106) with (2 ^ 53 * (128 * 2 ^ 46)).
    split.
    - apply Z.mul_le_mono_nonneg; lia.
    - apply Z.mul_lt_mono_nonneg; lia. }
  assert (Dlo : 104 < Z.pos (digits2_pos (m * M)))
    by (apply digits2_pos_lower; lia).
  assert (Dhi : Z.pos (digits2_pos (m * M)) <= 106)
    by (apply digits2_pos_upper; lia).
  destruct (binary_round_aux_value (xorb s false) (m * M) (e + -46)
              loc_Exact)
    as (m' & e' & Hres & Hm' & _ & Herr & _); try lia.
  rewrite xorb_false_r in Hres |- *.
  exists m', e'. split; [exact Hres|]. split; [exact Hm'|].
  assert (Hval : F2R (Z.pos (m * M)) (e + -46) = (100 * F2R (Z.pos m) e)%R).
  { unfold F2R. rewrite Pos2Z.inj_mul, mult_IZR, HM, mult_IZR, bpow_add.
    change (bpow (-46)) with (bpow (Z.opp 46)).
    rewrite (bpow_opp 46), (bpow_IZR 46) by lia.
    assert (0 < IZR (2 ^ 46))%R by (apply IZR_lt; lia).
    field. lra. }
  rewrite Hval in Herr. exact Herr.
Qed.

(** [nearestTenths] is the nearest integer to ten times the value, ties
    going up. *)
Lemma nearestTenths_spec (m : positive) e :
  e < 0 ->
  (IZR (nearestTenths m e) <= 10 * F2R (Z.pos m) e + / 2
   < IZR (nearestTenths m e) + 1)%R.
Proof.
  intro He. unfold nearestTenths.
  replace (0 <=? e) with false by (symmetry; apply Z.leb_gt; lia).
  set (k := - e).
  assert (Hk : 0 < k) by (subst k; lia).
  replace (1 - e) with (k + 1) by (subst k; lia).
  assert (Hpow : 2 ^ (k + 1) = 2 * 2 ^ k)
    by (rewrite pow2_split, Z.pow_1_r by lia; lia).
  assert (HK : 0 < 2 ^ k) by (apply pow2_pos; lia).
  set (n := (20 * Z.pos m + 2 ^ k) / 2 ^ (k + 1)).
  assert (Hn : n * (2 * 2 ^ k) <= 20 * Z.pos m + 2 ^ k
               < (n + 1) * (2 * 2 ^ k)).
  { subst n. rewrite Hpow.
    pose proof (Z.mul_div_le (20 * Z.pos m + 2 ^ k) (2 * 2 ^ k)).
    pose proof (Z.mul_succ_div_gt (20 * Z.pos m + 2 ^ k) (2 * 2 ^ k)).
    lia. }
  destruct Hn as [Hn1 Hn2].
  apply IZR_le in Hn1. apply IZR_lt in Hn2.
  rewrite !mult_IZR, !plus_IZR, ?mult_IZR in Hn1, Hn2.
  rewrite ?(plus_IZR n 1) in Hn2.
  unfold F2R. replace e with (- k) by (subst k; lia).
  rewrite bpow_opp, (bpow_IZR k) by lia.
  assert (HKr : (0 < IZR (2 ^ k))%R) by (apply IZR_lt; lia).
  set (K := IZR (2 ^ k)) in *. set (N := IZR n) in *.
  set (Mr := IZR (Z.pos m)) in *.
  assert (E : (10 * (Mr * / K) + / 2 = (20 * Mr + K) / (2 * K))%R)
    by (field; lra).
  rewrite E. split.
  - apply Rmult_le_reg_r with (2 * K)%R; [lra|].
    unfold Rdiv. rewrite Rmult_assoc, Rinv_l by lra. lra.
  - apply Rmult_lt_reg_r with (2 * K)%R; [lra|].
    unfold Rdiv. rewrite Rmult_assoc, Rinv_l by lra. lra.
Qed.

(** ** The aggregator *)

Lemma atLeast1e21_normal (m : positive) e :
  Z.pos m < 2 ^ 53 -> e < 0 -> atLeast1e21 m e = false.
Proof.
  intros Hm He. unfold atLeast1e21.
  replace (0 <=? e) with false by (symmetry; apply Z.leb_gt; lia).
  apply Z.leb_gt.
  assert (0 < 2 ^ (- e)) by (apply pow2_pos; lia).
  assert (2 ^ 53 < 10 ^ 21) by reflexivity.
  nia.
Qed.

(** One share of a non-zero duration: the digits printed are those of an
    integer number [n] of tenths with [|n / 10 - 100 * |d| / T| < 1 / 15],
    preceded by a minus sign when [d] is negative. *)
Lemma share_nonzero d T :
  d <> 0 -> shareInRange d T -> 0 < T < 2 ^ 53 ->
  exists n,
    share d T = Some (signed1 (d <? 0) n)
    /\ 0 <= n
    /\ 3 * Z.abs (n * T - 1000 * Z.abs d) < 2 * T.
Proof.
  intros Hnz [Hd Hrange] HT.
  destruct (numDiv_integers d T Hnz Hd HT)
    as (m1 & e1 & Hdiv & Hm1 & He1 & Herr1).
  destruct (numMul_hundred (d <? 0) m1 e1 Hm1 He1)
    as (m2 & e2 & Hmul & Hm2 & Herr2).
  unfold share. rewrite Hdiv, Hmul. unfold toFixed1.
  set (X := (IZR (Z.abs d) / IZR T)%R) in *.
  assert (HTr : (0 < IZR T)%R) by (apply IZR_lt; lia).
  assert (HX : (0 < X <= 100000000000)%R).
  { subst X. split.
    - apply Rdiv_lt_0_compat; [apply IZR_lt; lia | exact HTr].
    - apply Rmult_le_reg_r with (IZR T); [exact HTr|].
      unfold Rdiv. rewrite Rmult_assoc, Rinv_l by lra.
      apply IZR_le in Hrange. rewrite mult_IZR in Hrange.
      change (IZR (10 ^ 11)) with 100000000000%R in Hrange. lra. }
  change (IZR (2 ^ 51)) with 2251799813685248%R in Herr1.
  change (IZR (2 ^ 52)) with 4503599627370496%R in Herr2.
  set (y1 := F2R (Z.pos m1) e1) in *.
  set (y2 := F2R (Z.pos m2) e2) in *.
  assert (Hy1 : (Rabs (y1 - X) <= / 20000)%R).
  { apply Rmult_le_reg_r with 2251799813685248%R; [lra|].
    eapply Rle_trans; [exact Herr1|]. lra. }
  assert (Hy1' : (0 < y1 <= 100000000001)%R)
    by (split_Rabs; lra).
  assert (Hy2 : (Rabs (y2 - 100 * y1) <= / 400)%R).
  { apply Rmult_le_reg_r with 4503599627370496%R; [lra|].
    eapply Rle_trans; [exact Herr2|]. lra. }
  assert (Hclose : (Rabs (y2 - 100 * X) <= 3 / 400)%R).
  { split_Rabs; lra. }
  assert (He2 : e2 < 0).
  { destruct (Z_lt_le_dec e2 0) as [|Hge]; [assumption|]. exfalso.
    pose proof (bpow_ge1 e2 Hge) as Hb.
    assert (Hm2r : (IZR (2 ^ 52) <= IZR (Z.pos m2))%R) by (apply IZR_le; lia).
    change (IZR (2 ^ 52)) with 4503599627370496%R in Hm2r.
    assert (4503599627370496 <= y2)%R.
    { subst y2. unfold F2R.
      apply Rle_trans with (IZR (Z.pos m2) * 1)%R; [lra|].
      apply Rmult_le_compat_l; lra. }
    split_Rabs; lra. }
  rewrite atLeast1e21_normal by lia.
  pose proof (nearestTenths_spec m2 e2 He2) as Hn. fold y2 in Hn.
  set (n := nearestTenths m2 e2) in *.
  exists n. split; [reflexivity|].
  assert (Hnear : (Rabs (IZR n - 1000 * X) < 2 / 3)%R).
  { split_Rabs; lra. }
  assert (Hd' : IZR (Z.abs d) = (X * IZR T)%R) by (subst X; field; lra).
  split.
  - apply le_IZR. apply Rnot_lt_le. intro Hneg.
    assert (Hn1 : n <= -1) by (apply lt_IZR in Hneg; lia).
    apply IZR_le in Hn1.
    split_Rabs; lra.
  - apply lt_IZR.
    rewrite !mult_IZR, abs_IZR, minus_IZR, !mult_IZR, Hd'.
    replace (IZR n * IZR T - 1000 * (X * IZR T))%R
      with ((IZR n - 1000 * X) * IZR T)%R by ring.
    rewrite Rabs_mult, (Rabs_pos_eq (IZR T)) by lra.
    assert (Rabs (IZR n - 1000 * X) * IZR T < 2 / 3 * IZR T)%R
      by (apply Rmult_lt_compat_r; assumption).
    lra.
Qed.

Lemma share_zero T :
  0 < T < 2 ^ 53 -> share 0 T = Some (signed1 false 0).
Proof.
  intro HT. destruct (ofInteger_exact T) as (mt & et & Et & _); try lia.
  unfold share. rewrite Et. reflexivity.
Qed.

(** One share of any duration in range: what is printed denotes a number of
    tenths within 2/3 of the exact [1000 * d / T]. *)
Lemma share_close d T :
  shareInRange d T -> 0 < T < 2 ^ 53 ->
  exists negative n,
    share d T = Some (signed1 negative n)
    /\ 0 <= n
    /\ 3 * Z.abs (tenthsValue negative n * T - 1000 * d) < 2 * T.
Proof.
  intros Hd HT. destruct (Z.eq_dec d 0) as [->|Hnz].
  - exists false, 0. split; [now apply share_zero|].
    unfold tenthsValue. lia.
  - destruct (share_nonzero d T Hnz Hd HT) as (n & Hs & Hn & Hclose).
    exists (d <? 0), n. split; [exact Hs|]. split; [exact Hn|].
    unfold tenthsValue. destruct (Z.ltb_spec d 0); lia.
Qed.

Local Open Scope string_scope.

Lemma toString_nonempty n : toString n <> "".
Proof.
  unfold toString. destruct n as [|p|p]; simpl; try discriminate.
  unfold NilZero.string_of_uint.
  pose proof (Unsigned.to_uint_nonnil p) as Hnil.
  destruct (Pos.to_uint p); simpl; congruence.
Qed.

Lemma readMagnitude1_fixed1 n :
  (0 <= n)%Z -> readMagnitude1 (fixed1 n) = Some n.
Proof.
  intro Hn. unfold readMagnitude1, fixed1.
  change (toString (n / 10) ++ "." ++ toString (n mod 10))
    with (toString (n / 10) ++ String "." (toString (n mod 10))).
  rewrite splitOn_app
    by (apply allDigits_noChar;
        [reflexivity | apply toString_allDigits, Z.div_pos; lia]).
  rewrite splitOn_noChar
    by (apply allDigits_noChar;
        [reflexivity | apply toString_allDigits, Z.mod_pos_bound; lia]).
  rewrite !parseInt_toString. f_equal.
  Z.to_euclidean_division_equations. lia.
Qed.

Lemma readFixed1_digit c rest :
  isDigit c = true ->
  readFixed1 (String c rest) = readMagnitude1 (String c rest).
Proof.
  intro Hc.
  destruct c as [[] [] [] [] [] [] [] []]; try reflexivity; discriminate Hc.
Qed.

Lemma readFixed1_signed1 negative n :
  (0 <= n)%Z -> readFixed1 (signed1 negative n) = Some (tenthsValue negative n).
Proof.
  intro Hn. unfold signed1, tenthsValue. destruct negative.
  - change ("-" ++ fixed1 n) with (String "-" (fixed1 n)).
    cbn [readFixed1]. now rewrite readMagnitude1_fixed1.
  - change ("" ++ fixed1 n) with (fixed1 n).
    rewrite <- (readMagnitude1_fixed1 n Hn). unfold fixed1.
    assert (Hd : allDigits (toString (n / 10)) = true)
      by (apply toString_allDigits, Z.div_pos; lia).
    pose proof (toString_nonempty (n / 10)) as Hne.
    destruct (toString (n / 10)) as [|c w]; [congruence|].
    cbn [allDigits] in Hd. apply andb_prop in Hd as [Hc _].
    cbn [append]. now apply readFixed1_digit.
Qed.

Local Close Scope string_scope.

Lemma addDuration_nonneg ds a d :
  0 <= d ->
  0 <= dur_moving ds -> 0 <= dur_traffic ds -> 0 <= dur_dwelling ds ->
  0 <= dur_moving (addDuration ds a d)
  /\ 0 <= dur_traffic (addDuration ds a d)
  /\ 0 <= dur_dwelling (addDuration ds a d).
Proof. intros. destruct a; simpl; lia. Qed.

Lemma fold_durations_nonneg now log : forall ds,
  Forall (fun e => 0 <= entryDuration now e) log ->
  0 <= dur_moving ds -> 0 <= dur_traffic ds -> 0 <= dur_dwelling ds ->
  let ds' := fold_left (fun durations entry =>
                          addDuration durations (activity entry)
                                      (entryDuration now entry)) log ds in
  0 <= dur_moving ds' /\ 0 <= dur_traffic ds' /\ 0 <= dur_dwelling ds'.
Proof.
  induction log as [|e log IH]; intros ds Hlog Hm Ht Hd; simpl; [auto|].
  inversion Hlog as [|? ? He Hrest]; subst.
  destruct (addDuration_nonneg ds (activity e) (entryDuration now e) He Hm Ht Hd)
    as (Hm' & Ht' & Hd').
  exact (IH _ Hrest Hm' Ht' Hd').
Qed.

Lemma sumDurations_nonneg log now :
  Forall (fun e => 0 <= entryDuration now e) log ->
  0 <= dur_moving (sumDurations log now)
  /\ 0 <= dur_traffic (sumDurations log now)
  /\ 0 <= dur_dwelling (sumDurations log now).
Proof.
  intro Hlog. unfold sumDurations.
  apply fold_durations_nonneg; simpl; (assumption || lia).
Qed.



(** The range condition holds whenever no entry has a negative duration and
    the total is a safe integer. *)
Lemma shareInRange_nonneg log now :
  Forall (fun e => 0 <= entryDuration now e) log ->
  let durations := sumDurations log now in
  let total := totalDuration durations in
  total < 2 ^ 53 ->
  shareInRange (dur_moving durations) total
  /\ shareInRange (dur_traffic durations) total
  /\ shareInRange (dur_dwelling durations) total.
Proof.
  intros Hlog ds T HT.
  destruct (sumDurations_nonneg log now Hlog) as (Hm & Ht & Hd).
  fold ds in Hm, Ht, Hd.
  assert (HTsum : T = dur_moving ds + dur_traffic ds + dur_dwelling ds)
    by reflexivity.
  unfold shareInRange. change (10 ^ 11) with 100000000000.
  repeat split; lia.
Qed.

(** The scenario of the specification: Moving for a minute, Traffic for half
    a minute. *)
Example shares_scenario :
  let s := run [(MovingButton, 0); (TrafficButton, 60000);
                (TrafficButton, 90000)] initialState in
  timeEntries s = [mkEntry moving 0 (Some 60000);
                   mkEntry traffic 60000 (Some 90000)]
  /\ calculateDurations (timeEntries s) 90000
     = mkShares (Some "66.7"%string) (Some "33.3"%string) (Some "0.0"%string).
Proof. split; reflexivity. Qed.

(** Outside the range the shares need not add up: with a clock that goes
    back by far more than the total, the quotients are rounded to multiples
    of 64. *)
Example shares_out_of_range :
  calculateDurations [mkEntry moving 8000000000000000 (Some 1);
                      mkEntry traffic 1 (Some 8000000000000002)] 0
  = mkShares (Some "-399999999999999936.0"%string)
             (Some "400000000000000064.0"%string) (Some "0.0"%string).
Proof. reflexivity. Qed.

(** C3, the code at the empty log: the total is 0, each quotient is [0 / 0],
    and each share is printed as "NaN". *)
Theorem empty_log_shares_are_NaN (now : Z) :
  calculateDurations [] now
  = mkShares (Some "NaN"%string) (Some "NaN"%string) (Some "NaN"%string).
Proof. reflexivity. Qed.

(** The same happens on a non-empty log as long as the total is 0, for
    instance when the page renders in the millisecond of the first click. *)
Example zero_total_shares_are_NaN :
  calculateDurations (timeEntries (onClick MovingButton 5000 initialState)) 5000
  = mkShares (Some "NaN"%string) (Some "NaN"%string) (Some "NaN"%string).
Proof. reflexivity. Qed.

(** * Further properties of the code *)

(** ** The click handler *)

Lemma handle_keeps_entries act now s i e :
  nth_error (timeEntries s) i = Some e ->
  exists e',
    nth_error (timeEntries (handleActivityClick act now s)) i = Some e'
    /\ activity e' = activity e /\ startTime e' = startTime e
    /\ (isOpen e = false -> e' = e).
Proof.
  intros Hi. unfold handleActivityClick.
  assert (Hended : exists e',
             nth_error (if truthy (currentActivity s)
                        then map (closeEntry now) (timeEntries s)
                        else timeEntries s) i = Some e'
             /\ activity e' = activity e /\ startTime e' = startTime e
             /\ (isOpen e = false -> e' = e)).
  { destruct (truthy _); [|exists e; now repeat split].
    exists (closeEntry now e). rewrite nth_error_map, Hi.
    rewrite closeEntry_start, closeEntry_activity.
    repeat split. apply closeEntry_id. }
  destruct Hended as (e' & Hn & Ha & Hs & Hc). exists e'.
  destruct (negb _); cbn [timeEntries]; [|now repeat split].
  rewrite nth_error_app1; [now repeat split|].
  apply nth_error_Some. congruence.
Qed.

Lemma runRaw_keeps_entries calls : forall s i e,
  nth_error (timeEntries s) i = Some e ->
  exists e',
    nth_error (timeEntries (runRaw calls s)) i = Some e'
    /\ activity e' = activity e /\ startTime e' = startTime e
    /\ (isOpen e = false -> e' = e).
Proof.
  induction calls as [|c calls IH]; intros s i e Hi.
  - exists e. now repeat split.
  - cbn [runRaw fold_left].
    destruct (handle_keeps_entries (fst c) (snd c) s i e Hi)
      as (e1 & H1 & Ha1 & Hs1 & Hc1).
    destruct (IH _ _ _ H1) as (e2 & H2 & Ha2 & Hs2 & Hc2).
    exists e2. split; [exact H2|]. split; [congruence|]. split; [congruence|].
    intro Hclosed. rewrite <- (Hc1 Hclosed). apply Hc2.
    now rewrite (Hc1 Hclosed).
Qed.

Lemma runRaw_app pre post s :
  runRaw (pre ++ post) s = runRaw post (runRaw pre s).
Proof. unfold runRaw. apply fold_left_app. Qed.

Lemma run_as_runRaw clicks s :
  run clicks s
  = runRaw (map (fun c => (buttonActivity (fst c), snd c)) clicks) s.
Proof.
  revert s. induction clicks as [|c clicks IH]; intro s; [reflexivity|].
  cbn [run runRaw fold_left map fst snd]. apply IH.
Qed.

(** X1. The log is append-only, whatever is passed to the handler ([null]
    included): further calls never remove or reorder entries, never change
    the activity or the start time of an entry, and never touch an entry
    that is already closed. *)
Theorem log_is_append_only (pre post : list (Activity * Z)) :
  let before := timeEntries (runRaw pre initialState) in
  let after := timeEntries (runRaw (pre ++ post) initialState) in
  (List.length before <= List.length after)%nat
  /\ forall i e,
       nth_error before i = Some e ->
       exists e',
         nth_error after i = Some e'
         /\ activity e' = activity e /\ startTime e' = startTime e
         /\ (endTime e <> None -> e' = e).
Proof.
  intros before after.
  assert (Hkeep : forall i e,
             nth_error before i = Some e ->
             exists e',
               nth_error after i = Some e'
               /\ activity e' = activity e /\ startTime e' = startTime e
               /\ (endTime e <> None -> e' = e)).
  { intros i e Hi. subst after. rewrite runRaw_app.
    destruct (runRaw_keeps_entries post _ i e Hi) as (e' & H & Ha & Hs & Hc).
    exists e'. repeat split; try assumption.
    intro Hend. apply Hc. unfold isOpen. now destruct (endTime e). }
  split; [|exact Hkeep].
  destruct (Nat.le_gt_cases (List.length before) (List.length after))
    as [|Hlt]; [assumption|].
  exfalso.
  destruct (nth_error before (List.length after)) as [e|] eqn:E.
  - destruct (Hkeep _ _ E) as (e' & H & _).
    apply nth_error_Some in Hlt.
    assert (nth_error after (List.length after) = None)
      by (apply nth_error_None; lia).
    congruence.
  - apply nth_error_None in E. lia.
Qed.

Lemma onClick_keeps_session_start b now s t :
  st_startTime s = Some t -> st_startTime (onClick b now s) = Some t.
Proof.
  intro H. unfold onClick, handleActivityClick.
  destruct (negb _); cbn [st_startTime]; now rewrite H.
Qed.

Lemma run_keeps_session_start clicks : forall s t,
  st_startTime s = Some t -> st_startTime (run clicks s) = Some t.
Proof.
  induction clicks as [|c clicks IH]; intros s t H; [exact H|].
  apply IH. now apply onClick_keeps_session_start.
Qed.

Lemma run_cons c rest s :
  run (c :: rest) s = run rest (onClick (fst c) (snd c) s).
Proof. reflexivity. Qed.

Lemma first_entry_of_session (c : Click) (rest : list Click) :
  exists e log,
    timeEntries (run (c :: rest) initialState) = e :: log
    /\ activity e = buttonActivity (fst c) /\ startTime e = snd c.
Proof.
  rewrite run_cons.
  rewrite (onClick_from_idle (fst c) (snd c) initialState eq_refl).
  cbn [timeEntries st_startTime initialState app].
  destruct (run_keeps_start rest
              (mkState (buttonActivity (fst c))
                       [mkEntry (buttonActivity (fst c)) (snd c) None]
                       (Some (snd c)))
              0%nat _ eq_refl) as (e & He & Hs & Ha).
  destruct (timeEntries (run rest _)) as [|e0 log]; [discriminate|].
  injection He as ->. exists e, log. now repeat split.
Qed.

(** X2. The session start recorded by the handler is the clock value of the
    very first click and never changes afterwards; it is also the start time
    of the first entry of the log, which is the entry of the first button
    clicked. *)
Theorem session_start_is_first_click (c : Click) (rest : list Click) :
  let s := run (c :: rest) initialState in
  st_startTime s = Some (snd c)
  /\ exists e log,
       timeEntries s = e :: log
       /\ activity e = buttonActivity (fst c) /\ startTime e = snd c.
Proof.
  intro s. split; [|apply first_entry_of_session].
  subst s. rewrite run_cons.
  apply run_keeps_session_start.
  rewrite (onClick_from_idle (fst c) (snd c) initialState eq_refl).
  reflexivity.
Qed.

Lemma onClick_length b now s :
  List.length (timeEntries (onClick b now s))
  = (List.length (timeEntries s)
     + if Activity_eqb (buttonActivity b) (currentActivity s) then 0 else 1)%nat.
Proof.
  unfold onClick, handleActivityClick.
  assert (Hl : List.length (if truthy (currentActivity s)
                            then map (closeEntry now) (timeEntries s)
                            else timeEntries s)
               = List.length (timeEntries s))
    by (destruct (truthy _); [apply length_map | reflexivity]).
  destruct (Activity_eqb _ _); cbn [negb timeEntries].
  - rewrite Hl. lia.
  - rewrite length_app, Hl. reflexivity.
Qed.

(** X3. A click adds one entry when it starts an activity and none when it
    stops the active one, so the log never has more entries than there were
    clicks. *)
Theorem log_length_bounded_by_clicks (clicks : list Click) (b : Button) (t : Z) :
  let s := run clicks initialState in
  (List.length (timeEntries s) <= List.length clicks)%nat
  /\ List.length (timeEntries (onClick b t s))
     = (List.length (timeEntries s)
        + if Activity_eqb (buttonActivity b) (currentActivity s)
          then 0 else 1)%nat.
Proof.
  intro s. subst s. split; [|apply onClick_length].
  induction clicks as [|c clicks IH] using rev_ind; [simpl; lia|].
  rewrite run_app, length_app. cbn [run fold_left List.length].
  rewrite onClick_length.
  destruct (Activity_eqb _ _); lia.
Qed.

(** X4. Pressing the same button twice while nothing is active records one
    closed entry, from the first press to the second, and leaves the page
    idle again. *)
Theorem toggle_records_one_closed_entry
    (clicks : list Click) (b : Button) (t1 t2 : Z) :
  let s := run clicks initialState in
  currentActivity s = null ->
  run [(b, t1); (b, t2)] s
  = mkState null
            (timeEntries s ++ [mkEntry (buttonActivity b) t1 (Some t2)])
            (match st_startTime s with None => Some t1 | Some t => Some t end).
Proof.
  intros s Hidle.
  assert (Hc : consistent s) by apply consistent_run, consistent_initial.
  unfold consistent in Hc. rewrite Hidle in Hc.
  cbn [run fold_left fst snd].
  rewrite (onClick_from_idle b t1 s Hidle).
  now rewrite (onClick_same_activity b t2 (timeEntries s) t1 _ Hc).
Qed.

Lemma toggle_witness :
  run [(MovingButton, 1000); (MovingButton, 4000)] initialState
  = mkState null [mkEntry moving 1000 (Some 4000)] (Some 1000).
Proof.
  exact (toggle_records_one_closed_entry [] MovingButton 1000 4000 eq_refl).
Defined.

(** *** Sessions under a steady clock *)

Lemma stamped_weaken T T' log : T <= T' -> stamped T log -> stamped T' log.
Proof.
  intros HT H. eapply Forall_impl; [|exact H].
  intros e [Hs He]. split; [lia|]. intros t Ht. specialize (He t Ht). lia.
Qed.

Lemma stamped_close T now log :
  stamped T log -> T <= now -> stamped now (map (closeEntry now) log).
Proof.
  intros H HT. unfold stamped. rewrite Forall_map.
  eapply Forall_impl; [|exact H].
  intros e [Hs He]. unfold closeEntry.
  destruct (endTime e) as [t|] eqn:E.
  - rewrite E. split; [lia|]. intros t' Ht'. specialize (He _ Ht'). lia.
  - cbn [startTime endTime]. split; [lia|]. intros t' [= <-]. lia.
Qed.

Lemma stamped_onClick T b now s :
  stamped T (timeEntries s) -> T <= now -> 0 < now ->
  stamped now (timeEntries (onClick b now s)).
Proof.
  intros H HT Hpos. unfold onClick, handleActivityClick.
  assert (Hended : stamped now (if truthy (currentActivity s)
                                then map (closeEntry now) (timeEntries s)
                                else timeEntries s)).
  { destruct (truthy _); [now apply (stamped_close T)|].
    now apply (stamped_weaken T). }
  destruct (negb _); cbn [timeEntries]; [|exact Hended].
  apply Forall_app. split; [exact Hended|].
  constructor; [|constructor]. cbn [startTime endTime].
  split; [lia | discriminate].
Qed.

Lemma stamped_run clicks : forall T s now,
  stamped T (timeEntries s) -> 0 < T <= now ->
  nondecreasing (T :: map snd clicks) ->
  Forall (fun c => 0 < snd c <= now) clicks ->
  exists T', T' <= now /\ stamped T' (timeEntries (run clicks s)).
Proof.
  induction clicks as [|c clicks IH]; intros T s now Hs HT Hnd Hnow.
  - exists T. split; [lia | exact Hs].
  - cbn [map nondecreasing] in Hnd. destruct Hnd as [Hle Hnd].
    inversion Hnow as [|? ? Hc Hrest]; subst.
    rewrite run_cons. apply (IH (snd c)); try assumption.
    apply (stamped_onClick T); (assumption || lia).
Qed.

Lemma stamped_session clicks now :
  steadyClock clicks now ->
  exists T, T <= now /\ stamped T (timeEntries (run clicks initialState)).
Proof.
  intros [Hnd Hnow]. destruct clicks as [|c clicks].
  - exists now. split; [lia | constructor].
  - inversion Hnow as [|? ? Hc _]; subst.
    apply (stamped_run (c :: clicks) (snd c)); try assumption.
    + constructor.
    + split; [lia | exact Hnd].
Qed.

Lemma stamped_wellTimed T now log :
  stamped T log -> T <= now -> Forall (wellTimed now) log.
Proof.
  intros H HT. eapply Forall_impl; [|exact H].
  intros e [Hs He]. unfold wellTimed, effectiveEnd.
  destruct (endTime e) as [t|].
  - specialize (He t eq_refl). split; [|lia]. intros [= ->]. lia.
  - split; [discriminate | lia].
Qed.

(** X5. In a session whose clock never went backwards (and is after the
    epoch), read at a time not before the last click, no entry of the log
    ends before it starts, none is closed at timestamp 0, and every duration
    the aggregator and the exporter compute is non-negative. *)
Theorem steady_session_is_well_timed (clicks : list Click) (now : Z) :
  steadyClock clicks now ->
  let log := timeEntries (run clicks initialState) in
  Forall (wellTimed now) log
  /\ Forall (fun e => 0 <= entryDuration now e
                      /\ entryDuration now e = effectiveDuration e now) log.
Proof.
  intros Hclock log.
  destruct (stamped_session clicks now Hclock) as (T & HT & Hs).
  pose proof (stamped_wellTimed T now _ Hs HT) as Hw. fold log in Hw.
  split; [exact Hw|].
  eapply Forall_impl; [|exact Hw].
  intros e He. unfold entryDuration, effectiveDuration.
  rewrite (orNow_wellTimed now e He). split; [|reflexivity].
  destruct He as [_ He]. lia.
Qed.

Lemma steady_session_witness :
  steadyClock [(MovingButton, 1000); (TrafficButton, 61000)] 91000
  /\ Forall (wellTimed 91000)
       (timeEntries (run [(MovingButton, 1000); (TrafficButton, 61000)]
                         initialState)).
Proof.
  assert (H : steadyClock [(MovingButton, 1000); (TrafficButton, 61000)] 91000).
  { split; [simpl; lia|]. repeat constructor; simpl; lia. }
  split; [exact H|].
  exact (proj1 (steady_session_is_well_timed _ _ H)).
Defined.

(** *** Tracked time *)

Lemma addDuration_total ds a d :
  totalDuration (addDuration ds a d)
  = totalDuration ds + (if truthy a then d else 0).
Proof. destruct a; unfold totalDuration; cbn; lia. Qed.

Lemma totalDuration_fold now log : forall ds,
  totalDuration
    (fold_left (fun durations entry =>
                  addDuration durations (activity entry)
                              (entryDuration now entry)) log ds)
  = totalDuration ds + trackedTime now log.
Proof.
  induction log as [|e log IH]; intro ds; cbn [fold_left trackedTime]; [lia|].
  rewrite IH, addDuration_total. lia.
Qed.

Lemma total_is_trackedTime log now :
  totalDuration (sumDurations log now) = trackedTime now log.
Proof. unfold sumDurations. rewrite totalDuration_fold. reflexivity. Qed.

Lemma trackedTime_app now l1 l2 :
  trackedTime now (l1 ++ l2) = trackedTime now l1 + trackedTime now l2.
Proof.
  induction l1 as [|e l1 IH]; cbn [app trackedTime]; [reflexivity|].
  rewrite IH. lia.
Qed.

Lemma entryDuration_stamped T now e :
  (0 < startTime e <= T /\
   forall t, endTime e = Some t -> startTime e <= t <= T) ->
  entryDuration now e
  = match endTime e with Some t => t - startTime e | None => now - startTime e end.
Proof.
  intros [Hs He]. unfold entryDuration, orNow.
  destruct (endTime e) as [t|]; [|reflexivity].
  specialize (He t eq_refl). destruct (Z.eqb_spec t 0); [lia | reflexivity].
Qed.

Lemma trackedTime_closed T now now' log :
  stamped T log -> noneOpen log -> trackedTime now log = trackedTime now' log.
Proof.
  intros Hs Hn. induction log as [|e log IH]; [reflexivity|].
  inversion Hs as [|? ? He Hs']; subst. inversion Hn as [|? ? Hc Hn']; subst.
  cbn [trackedTime]. rewrite (IH Hs' Hn').
  rewrite (entryDuration_stamped T now e He), (entryDuration_stamped T now' e He).
  unfold isOpen in Hc. destruct (endTime e); [reflexivity | discriminate].
Qed.

(** Closing at [t] freezes the tracked time at its value at [t]. *)
Lemma trackedTime_close T t now log :
  stamped T log -> T <= t ->
  trackedTime now (map (closeEntry t) log) = trackedTime t log.
Proof.
  intros Hs HT. induction log as [|e log IH]; [reflexivity|].
  inversion Hs as [|? ? He Hs']; subst.
  cbn [map trackedTime]. rewrite (IH Hs'), closeEntry_activity.
  f_equal. destruct (truthy (activity e)); [|reflexivity].
  rewrite (entryDuration_stamped T t e He).
  destruct He as [Hst He]. unfold closeEntry, entryDuration, orNow.
  destruct (endTime e) as [t'|] eqn:E.
  - rewrite E. specialize (He t' eq_refl).
    destruct (Z.eqb_spec t' 0); [lia | reflexivity].
  - cbn [endTime startTime]. destruct (Z.eqb_spec t 0); [lia | reflexivity].
Qed.

Lemma trackedTime_nonneg T now log :
  stamped T log -> T <= now -> 0 <= trackedTime now log.
Proof.
  intros Hs HT. induction log as [|e log IH]; [cbn; lia|].
  inversion Hs as [|? ? He Hs']; subst.
  cbn [trackedTime]. specialize (IH Hs').
  rewrite (entryDuration_stamped T now e He). destruct He as [Hst He].
  destruct (truthy _); [|lia].
  destruct (endTime e) as [t|]; [specialize (He t eq_refl)|]; lia.
Qed.

(** While the state is consistent, tracked time grows no faster than the
    clock. *)
Lemma trackedTime_advance T t s :
  consistent s -> stamped T (timeEntries s) -> T <= t ->
  trackedTime t (timeEntries s) <= trackedTime T (timeEntries s) + (t - T).
Proof.
  intros Hc Hs HT. unfold consistent in Hc.
  assert (Hidle : noneOpen (timeEntries s) ->
                  trackedTime t (timeEntries s)
                  <= trackedTime T (timeEntries s) + (t - T))
    by (intro Hn; rewrite (trackedTime_closed T t T _ Hs Hn); lia).
  destruct (currentActivity s); try (now apply Hidle);
    destruct Hc as (body & t0 & Hlog & Hb); rewrite Hlog in *;
    apply Forall_app in Hs as [Hs1 Hs2];
    rewrite !trackedTime_app, (trackedTime_closed T t T body Hs1 Hb);
    cbn [trackedTime truthy activity]; unfold entryDuration;
    cbn [orNow endTime startTime]; lia.
Qed.

Lemma trackedTime_onClick T b t s :
  consistent s -> stamped T (timeEntries s) -> T <= t ->
  trackedTime t (timeEntries (onClick b t s)) = trackedTime t (timeEntries s).
Proof.
  intros Hc Hs HT. unfold onClick, handleActivityClick.
  assert (Hended : trackedTime t (if truthy (currentActivity s)
                                  then map (closeEntry t) (timeEntries s)
                                  else timeEntries s)
                   = trackedTime t (timeEntries s))
    by (destruct (truthy _); [now apply (trackedTime_close T) | reflexivity]).
  destruct (negb _); cbn [timeEntries]; [|exact Hended].
  rewrite trackedTime_app, Hended. cbn [trackedTime].
  unfold entryDuration. cbn [orNow endTime startTime].
  destruct (truthy (activity _)); lia.
Qed.

Lemma trackedTime_run t0 clicks : forall T s now,
  consistent s -> stamped T (timeEntries s) -> 0 < T <= now ->
  trackedTime T (timeEntries s) <= T - t0 ->
  nondecreasing (T :: map snd clicks) ->
  Forall (fun c => 0 < snd c <= now) clicks ->
  exists T',
    T' <= now
    /\ consistent (run clicks s)
    /\ stamped T' (timeEntries (run clicks s))
    /\ trackedTime T' (timeEntries (run clicks s)) <= T' - t0.
Proof.
  induction clicks as [|c clicks IH]; intros T s now Hc Hs HT Htr Hnd Hnow.
  - exists T. repeat split; (assumption || lia).
  - cbn [map nondecreasing] in Hnd. destruct Hnd as [Hle Hnd].
    inversion Hnow as [|? ? Hcl Hrest]; subst.
    rewrite run_cons. apply (IH (snd c)); try assumption.
    + now apply consistent_onClick.
    + apply (stamped_onClick T); (assumption || lia).
    + rewrite (trackedTime_onClick T) by assumption.
      pose proof (trackedTime_advance T (snd c) s Hc Hs Hle). lia.
Qed.

Lemma trackedTime_session (c : Click) (rest : list Click) (now : Z) :
  steadyClock (c :: rest) now ->
  0 <= trackedTime now (timeEntries (run (c :: rest) initialState))
    <= now - snd c.
Proof.
  intros [Hnd Hnow].
  inversion Hnow as [|? ? Hc Hrest]; subst.
  rewrite run_cons.
  destruct (trackedTime_run (snd c) rest (snd c)
              (onClick (fst c) (snd c) initialState) now)
    as (T & HT & Hcons & Hst & Htr); try assumption.
  - apply consistent_onClick, consistent_initial.
  - apply (stamped_onClick (snd c)); [constructor | lia | lia].
  - rewrite (onClick_from_idle (fst c) (snd c) initialState eq_refl).
    cbn [timeEntries initialState app trackedTime].
    unfold entryDuration. cbn [orNow endTime startTime].
    destruct (truthy (activity _)); lia.
  - split.
    + now apply (trackedTime_nonneg T).
    + pose proof (trackedTime_advance T now _ Hcons Hst HT). lia.
Qed.

(** X6. In a session under a steady clock the time attributed to the three
    activities never exceeds the time elapsed since the first click: entries
    do not overlap, so the total of [calculateDurations] lies between 0 and
    [now] minus the session start. *)
Theorem tracked_time_within_session
    (c : Click) (rest : list Click) (now : Z) :
  steadyClock (c :: rest) now ->
  let log := timeEntries (run (c :: rest) initialState) in
  0 <= totalDuration (sumDurations log now) <= now - snd c.
Proof.
  intros Hclock log. subst log. rewrite total_is_trackedTime.
  now apply trackedTime_session.
Qed.

Lemma tracked_time_witness :
  steadyClock [(MovingButton, 1000); (MovingButton, 4000); (TrafficButton, 9000)]
              10000
  /\ 0 <= totalDuration
            (sumDurations
               (timeEntries (run [(MovingButton, 1000); (MovingButton, 4000);
                                  (TrafficButton, 9000)] initialState)) 10000)
       <= 10000 - 1000.
Proof.
  assert (H : steadyClock [(MovingButton, 1000); (MovingButton, 4000);
                           (TrafficButton, 9000)] 10000).
  { split; [simpl; lia|]. repeat constructor; simpl; lia. }
  split; [exact H|].
  exact (tracked_time_within_session (MovingButton, 1000)
           [(MovingButton, 4000); (TrafficButton, 9000)] 10000 H).
Defined.

(** ** The aggregator, further *)





Lemma fold_durations_skip_null now log : forall ds,
  fold_left (fun durations entry =>
               addDuration durations (activity entry)
                           (entryDuration now entry))
            (filter (fun e => truthy (activity e)) log) ds
  = fold_left (fun durations entry =>
                 addDuration durations (activity entry)
                             (entryDuration now entry)) log ds.
Proof.
  induction log as [|e log IH]; intro ds; [reflexivity|].
  cbn [filter fold_left].
  destruct (activity e) eqn:Ea; cbn [truthy fold_left]; rewrite ?Ea; apply IH.
Qed.

(** X8. Entries without an activity (the handler can be handed [null]) do not
    count: removing them from the log changes none of the shares, whatever
    their timestamps. *)
Theorem shares_ignore_entries_without_activity
    (log : list TimeEntry) (now : Z) :
  calculateDurations (filter (fun e => truthy (activity e)) log) now
  = calculateDurations log now.
Proof.
  unfold calculateDurations, sumDurations.
  now rewrite fold_durations_skip_null.
Qed.















(** ** Sessions seen through the aggregator *)

Lemma steady_durations_nonneg clicks now :
  steadyClock clicks now ->
  Forall (fun e => 0 <= entryDuration now e)
         (timeEntries (run clicks initialState)).
Proof.
  intro Hclock.
  destruct (stamped_session clicks now Hclock) as (T & HT & Hs).
  eapply Forall_impl; [|exact Hs].
  intros e He. rewrite (entryDuration_stamped T now e He).
  destruct He as [Hst He].
  destruct (endTime e) as [t|]; [specialize (He t eq_refl)|]; lia.
Qed.

(** X13. In a session under a steady clock, read before 2^53 ms, with some
    time tracked: the three shares are numbers with one decimal between 0.0
    and 100.0.  No range condition is left: entries do not overlap, so every
    accumulator is between 0 and the total, and the total is below [now]. *)
Theorem session_shares_between_0_and_100 (clicks : list Click) (now : Z) :
  steadyClock clicks now -> now < 2 ^ 53 ->
  let log := timeEntries (run clicks initialState) in
  0 < totalDuration (sumDurations log now) ->
  exists pm pt pd vm vt vd,
    calculateDurations log now = mkShares (Some pm) (Some pt) (Some pd)
    /\ readFixed1 pm = Some vm /\ readFixed1 pt = Some vt
    /\ readFixed1 pd = Some vd
    /\ 0 <= vm <= 1000 /\ 0 <= vt <= 1000 /\ 0 <= vd <= 1000.
Proof.
  intros Hclock Hnow log Hpos.
  assert (HT : 0 < totalDuration (sumDurations log now) < 2 ^ 53).
  { split; [exact Hpos|]. subst log.
    destruct clicks as [|c rest]; [cbn in Hpos; lia|].
    rewrite total_is_trackedTime.
    pose proof (trackedTime_session c rest now Hclock) as Hb.
    destruct Hclock as [_ Hc]. inversion Hc as [|? ? Hc1 _]; subst. lia. }
  pose proof (steady_durations_nonneg clicks now Hclock) as Hnn.
  fold log in Hnn.
  destruct (sumDurations_nonneg log now Hnn) as (Hm & Ht & Hd).
  destruct (shareInRange_nonneg log now Hnn (proj2 HT)) as (Rm & Rt & Rd).
  unfold calculateDurations.
  set (ds := sumDurations log now) in *.
  set (T := totalDuration ds) in *.
  assert (HTsum : T = dur_moving ds + dur_traffic ds + dur_dwelling ds)
    by reflexivity.
  destruct (share_close (dur_moving ds) T Rm HT) as (sm & nm & Em & Pm & Cm).
  destruct (share_close (dur_traffic ds) T Rt HT) as (st & nt & Et & Pt & Ct).
  destruct (share_close (dur_dwelling ds) T Rd HT) as (sd & nd & Ed & Pd & Cd).
  exists (signed1 sm nm), (signed1 st nt), (signed1 sd nd),
         (tenthsValue sm nm), (tenthsValue st nt), (tenthsValue sd nd).
  rewrite Em, Et, Ed, !readFixed1_signed1 by assumption.
  split; [reflexivity|]. do 3 (split; [reflexivity|]).
  repeat split; nia.
Qed.

Lemma session_shares_witness :
  exists pm pt pd vm vt vd,
    calculateDurations
      (timeEntries (run [(MovingButton, 1000); (TrafficButton, 61000)]
                        initialState)) 91000
    = mkShares (Some pm) (Some pt) (Some pd)
    /\ readFixed1 pm = Some vm /\ readFixed1 pt = Some vt
    /\ readFixed1 pd = Some vd
    /\ 0 <= vm <= 1000 /\ 0 <= vt <= 1000 /\ 0 <= vd <= 1000.
Proof.
  apply (session_shares_between_0_and_100
           [(MovingButton, 1000); (TrafficButton, 61000)] 91000).
  - split; [simpl; lia|]. repeat constructor; simpl; lia.
  - reflexivity.
  - reflexivity.
Defined.

(** *** While nothing is active *)

Lemma nonzero_ends_onClick b now s :
  now <> 0 ->
  Forall (fun e => endTime e <> Some 0) (timeEntries s) ->
  Forall (fun e => endTime e <> Some 0) (timeEntries (onClick b now s)).
Proof.
  intros Hnow H. unfold onClick, handleActivityClick.
  assert (Hended : Forall (fun e => endTime e <> Some 0)
                     (if truthy (currentActivity s)
                      then map (closeEntry now) (timeEntries s)
                      else timeEntries s)).
  { destruct (truthy _); [|exact H].
    rewrite Forall_map. eapply Forall_impl; [|exact H].
    intros e He. unfold closeEntry. destruct (endTime e) eqn:E.
    - exact He.
    - cbn [endTime]. congruence. }
  destruct (negb _); cbn [timeEntries]; [|exact Hended].
  apply Forall_app. split; [exact Hended|].
  constructor; [discriminate | constructor].
Qed.

Lemma nonzero_ends_run clicks :
  Forall (fun c => snd c <> 0) clicks ->
  Forall (fun e => endTime e <> Some 0) (timeEntries (run clicks initialState)).
Proof.
  induction clicks as [|c clicks IH] using rev_ind; intro H; [constructor|].
  apply Forall_app in H as [H1 H2]. inversion H2 as [|? ? Hc _]; subst.
  rewrite run_app. cbn [run fold_left].
  apply nonzero_ends_onClick; [exact Hc | now apply IH].
Qed.

Lemma orNow_closed e now now' :
  isOpen e = false -> endTime e <> Some 0 ->
  orNow (endTime e) now = orNow (endTime e) now'.
Proof.
  unfold isOpen, orNow. destruct (endTime e) as [t|]; [|discriminate].
  intros _ Hz. destruct (Z.eqb_spec t 0); [congruence | reflexivity].
Qed.

Lemma fold_durations_ext now now' log :
  Forall (fun e => orNow (endTime e) now = orNow (endTime e) now') log ->
  forall ds,
    fold_left (fun durations entry =>
                 addDuration durations (activity entry)
                             (entryDuration now entry)) log ds
    = fold_left (fun durations entry =>
                   addDuration durations (activity entry)
                               (entryDuration now' entry)) log ds.
Proof.
  induction 1 as [|e log He _ IH]; intro ds; [reflexivity|].
  cbn [fold_left]. unfold entryDuration at 2 4. rewrite He. apply IH.
Qed.

(** X14. While no activity is active (and no click fell on timestamp 0) the
    read-side views are frozen: the exported text and the shares are the same
    at whatever time they are computed. *)
Theorem idle_views_do_not_depend_on_the_clock
    (formatTimeForCSV : Z -> string) (clicks : list Click) (now now' : Z) :
  Forall (fun c => snd c <> 0) clicks ->
  let s := run clicks initialState in
  currentActivity s = null ->
  exportToCSV formatTimeForCSV (timeEntries s) now
  = exportToCSV formatTimeForCSV (timeEntries s) now'
  /\ calculateDurations (timeEntries s) now
     = calculateDurations (timeEntries s) now'.
Proof.
  intros Hclicks s Hidle.
  assert (Hc : consistent s) by apply consistent_run, consistent_initial.
  unfold consistent in Hc. rewrite Hidle in Hc.
  pose proof (nonzero_ends_run clicks Hclicks) as Hz. fold s in Hz.
  assert (Hsame : Forall (fun e => orNow (endTime e) now
                                   = orNow (endTime e) now') (timeEntries s)).
  { apply Forall_forall. intros e Hin.
    apply orNow_closed.
    - unfold noneOpen in Hc. rewrite Forall_forall in Hc. now apply Hc.
    - rewrite Forall_forall in Hz. now apply Hz. }
  split.
  - unfold exportToCSV. f_equal. f_equal.
    apply map_ext_in. intros e Hin. unfold csvRow.
    rewrite Forall_forall in Hsame. now rewrite (Hsame e Hin).
  - unfold calculateDurations, sumDurations.
    now rewrite (fold_durations_ext now now' _ Hsame).
Qed.

Lemma idle_views_witness :
  calculateDurations
    (timeEntries (run [(MovingButton, 1000); (MovingButton, 4000)] initialState))
    5000
  = calculateDurations
      (timeEntries (run [(MovingButton, 1000); (MovingButton, 4000)] initialState))
      999000.
Proof.
  refine (proj2 (idle_views_do_not_depend_on_the_clock toString
                   [(MovingButton, 1000); (MovingButton, 4000)] 5000 999000
                   _ eq_refl)).
  repeat constructor; discriminate.
Defined.

(** ** The exporter, further *)

Local Open Scope string_scope.

Lemma noChar_uint c d :
  isDigit c = false -> noChar c (NilEmpty.string_of_uint d) = true.
Proof. intro Hc. apply allDigits_noChar; [exact Hc | apply allDigits_uint]. Qed.

Lemma noChar_toString c n :
  isDigit c = false -> Ascii.eqb "-" c = false -> noChar c (toString n) = true.
Proof.
  intros Hc Hminus. destruct n as [|p|p].
  - apply allDigits_noChar; [exact Hc | reflexivity].
  - apply allDigits_noChar; [exact Hc | now apply toString_allDigits].
  - unfold toString. cbn [Z.to_int NilZero.string_of_int noChar].
    rewrite Hminus. cbn [negb andb].
    unfold NilZero.string_of_uint.
    pose proof (noChar_uint c (Pos.to_uint p) Hc) as H.
    pose proof (Unsigned.to_uint_nonnil p) as Hnil.
    destruct (Pos.to_uint p); [congruence | exact H ..].
Qed.

Lemma noChar_repeatChar c a n :
  Ascii.eqb a c = false -> noChar c (repeatChar a n) = true.
Proof.
  intro Ha. induction n as [|n IH]; cbn [repeatChar noChar]; [reflexivity|].
  now rewrite Ha, IH.
Qed.

Lemma noChar_padStart c k s :
  Ascii.eqb "0" c = false -> noChar c s = true ->
  noChar c (padStart k "0" s) = true.
Proof.
  intros H0 Hs. unfold padStart. destruct (_ <? _)%nat; [|exact Hs].
  now rewrite noChar_app, noChar_repeatChar, Hs.
Qed.

Lemma isDigit_zero c : isDigit c = false -> Ascii.eqb "0" c = false.
Proof.
  intro Hc. destruct (Ascii.eqb_spec "0" c) as [<-|]; [discriminate | reflexivity].
Qed.

(** The duration field is made of digits, minus signs, a colon and a point,
    whatever the two timestamps are. *)
Lemma formatDuration_noChar c s e :
  isDigit c = false -> Ascii.eqb "-" c = false ->
  Ascii.eqb ":" c = false -> Ascii.eqb "." c = false ->
  noChar c (formatDuration s e) = true.
Proof.
  intros Hc Hminus Hcolon Hpoint. unfold formatDuration.
  pose proof (isDigit_zero c Hc) as H0.
  assert (Hm : noChar c (toString ((e - s) / 60000)) = true)
    by now apply noChar_toString.
  assert (Hs : noChar c (padStart 2 "0" (toString (Z.rem (e - s) 60000 / 1000)))
               = true)
    by (apply noChar_padStart; [exact H0 | now apply noChar_toString]).
  assert (Hms : noChar c (padStart 3 "0" (toString (Z.rem (e - s) 1000))) = true)
    by (apply noChar_padStart; [exact H0 | now apply noChar_toString]).
  rewrite !noChar_app, Hm, Hs, Hms.
  cbn [noChar]. now rewrite Hcolon, Hpoint.
Qed.

Lemma csvRow_fields fmt now e :
  (forall t, noChar "," (fmt t) = true) ->
  splitOn "," (csvRow fmt now e)
  = [activityString (activity e); fmt (startTime e);
     fmt (orNow (endTime e) now);
     formatDuration (startTime e) (orNow (endTime e) now)].
Proof.
  intro Hfmt. unfold csvRow.
  set (d := formatDuration (startTime e) (orNow (endTime e) now)).
  assert (Hd : noChar "," d = true)
    by (apply formatDuration_noChar; reflexivity).
  change (activityString (activity e) ++ "," ++ fmt (startTime e) ++ "," ++
          fmt (orNow (endTime e) now) ++ "," ++ d)
    with (activityString (activity e)
          ++ String "," (fmt (startTime e)
          ++ String "," (fmt (orNow (endTime e) now)
          ++ String "," d))).
  rewrite splitOn_app by (now apply activityString_noChar).
  rewrite splitOn_app by apply Hfmt.
  rewrite splitOn_app by apply Hfmt.
  now rewrite splitOn_noChar by exact Hd.
Qed.

Lemma csvRow_one_line fmt now e :
  (forall t, noChar (ascii_of_nat 10) (fmt t) = true) ->
  noChar (ascii_of_nat 10) (csvRow fmt now e) = true.
Proof.
  intro Hfmt. unfold csvRow.
  rewrite !noChar_app, !Hfmt.
  rewrite activityString_noChar by reflexivity.
  rewrite formatDuration_noChar by reflexivity.
  reflexivity.
Qed.

(** X15. The exported text is rectangular for every log, entries without an
    activity and entries ending before they start included: as long as the
    formatted times contain no comma and no newline, splitting the text on
    newlines gives the header and exactly one line per entry, and splitting
    any line on commas gives exactly four fields, so no field needs
    quoting. *)
Theorem export_is_rectangular
    (formatTimeForCSV : Z -> string) (log : list TimeEntry) (now : Z) :
  (forall t, noChar "," (formatTimeForCSV t) = true) ->
  (forall t, noChar (ascii_of_nat 10) (formatTimeForCSV t) = true) ->
  splitOn (ascii_of_nat 10) (exportToCSV formatTimeForCSV log now)
  = join "," headers :: map (csvRow formatTimeForCSV now) log
  /\ splitOn "," (join "," headers) = headers
  /\ Forall (fun e =>
               splitOn "," (csvRow formatTimeForCSV now e)
               = [activityString (activity e);
                  formatTimeForCSV (startTime e);
                  formatTimeForCSV (orNow (endTime e) now);
                  formatDuration (startTime e) (orNow (endTime e) now)])
            log.
Proof.
  intros Hcomma Hnl. split; [|split].
  - unfold exportToCSV. rewrite join_rows, map_map.
    change (fun x => newline ++ csvRow formatTimeForCSV now x)
      with (fun x => (fun row => String (ascii_of_nat 10) "" ++ row)
                       (csvRow formatTimeForCSV now x)).
    rewrite <- (map_map (csvRow formatTimeForCSV now)
                  (fun row => String (ascii_of_nat 10) "" ++ row)).
    apply splitOn_rows; [reflexivity|].
    rewrite Forall_map. apply Forall_forall. intros e _.
    now apply csvRow_one_line.
  - reflexivity.
  - apply Forall_forall. intros e _. now apply csvRow_fields.
Qed.

Lemma export_is_rectangular_witness :
  splitOn (ascii_of_nat 10)
    (exportToCSV formatTimeUTC
       [mkEntry null 5000 (Some 3000); mkEntry moving 3000 None] 9000)
  = ["activity_type,start_time,end_time,duration";
     "null,12:00:05 AM,12:00:03 AM,-1:-2.000";
     "moving,12:00:03 AM,12:00:09 AM,0:06.000"].
Proof.
  exact (proj1 (export_is_rectangular formatTimeUTC
                  [mkEntry null 5000 (Some 3000); mkEntry moving 3000 None] 9000
                  (fun t => formatTimeUTC_noChar "," t eq_refl eq_refl)
                  (fun t => formatTimeUTC_noChar (ascii_of_nat 10) t
                              eq_refl eq_refl))).
Defined.

(** X16. Two different non-negative durations are never printed alike:
    [formatDuration] is injective on spans that do not end before they
    start. *)
Theorem formatDuration_is_injective (s e s' e' : Z) :
  (s <= e)%Z -> (s' <= e')%Z ->
  formatDuration s e = formatDuration s' e' ->
  (e - s = e' - s')%Z.
Proof.
  intros H H' Heq.
  rewrite !formatDuration_nonneg in Heq by assumption.
  apply (f_equal parseDuration) in Heq.
  rewrite !parseDuration_specDuration in Heq by lia.
  congruence.
Qed.

Lemma formatDuration_is_injective_witness :
  (188045 - 1000 = 197045 - 10000)%Z.
Proof.
  apply (formatDuration_is_injective 1000 188045 10000 197045);
    [lia | lia | reflexivity].
Defined.

(** X17. The file name depends on the date part of the ISO time only:
    whatever follows the first "T" is dropped, and the name is "bus-timing-",
    the date, ".csv". *)
Theorem fileName_keeps_the_date (date time : string) :
  noChar "T" date = true ->
  fileName (date ++ "T" ++ time) = "bus-timing-" ++ date ++ ".csv".
Proof.
  intro Hdate. unfold fileName.
  change (date ++ "T" ++ time) with (date ++ String "T" time).
  now rewrite splitOn_app by exact Hdate.
Qed.

Lemma fileName_witness :
  fileName "2026-11-02T17:40:09.123Z" = "bus-timing-2026-11-02.csv".
Proof.
  exact (fileName_keeps_the_date "2026-11-02" "17:40:09.123Z" eq_refl).
Defined.

Local Close Scope string_scope.

(** ** The live clock, further *)

Local Open Scope string_scope.

Lemma parseInt_one_char c m :
  parseInt (String c "") = Some m -> (m <= 9)%Z.
Proof.
  destruct c as [[] [] [] [] [] [] [] []]; vm_compute;
    intro H; first [discriminate H | injection H as <-; discriminate].
Qed.

Lemma toString_two_chars m : (10 <= m)%Z -> (2 <= String.length (toString m))%nat.
Proof.
  intro Hm. pose proof (parseInt_toString m) as Hp.
  pose proof (toString_nonempty m) as Hne.
  destruct (toString m) as [|c [|c' rest]]; cbn [String.length];
    [congruence | | lia].
  apply parseInt_one_char in Hp. lia.
Qed.

(** Minutes are padded to two digits, never cut: from ten minutes on the
    number is printed as it is. *)
Lemma padStart_minutes m :
  (0 <= m)%Z ->
  padStart 2 "0" (toString m)
  = (if (m <? 10)%Z then "0" else "") ++ toString m.
Proof.
  intro Hm. destruct (Z.ltb_spec m 10) as [Hlt|Hge].
  - apply String.eqb_eq.
    apply (checked_below
             (fun k => String.eqb (padStart 2 "0" (toString k))
                                  ("0" ++ toString k)) 10);
      [vm_compute; reflexivity | lia].
  - unfold padStart. pose proof (toString_two_chars m Hge) as Hlen.
    destruct (Nat.ltb_spec (String.length (toString m)) 2); [lia | reflexivity].
Qed.

Lemma started_entry_is_last (b : Button) (t : Z) (s : State) :
  Activity_eqb (buttonActivity b) (currentActivity s) = false ->
  truthy (currentActivity (onClick b t s)) = true
  /\ nth_error (timeEntries (onClick b t s))
       (List.length (timeEntries (onClick b t s)) - 1)
     = Some (mkEntry (buttonActivity b) t None).
Proof.
  intro Hne. unfold onClick, handleActivityClick. rewrite Hne.
  cbn [negb currentActivity timeEntries]. split; [now destruct b|].
  rewrite length_app. cbn [List.length].
  rewrite Nat.add_sub, nth_error_app2, Nat.sub_diag by lia. reflexivity.
Qed.

Lemma stopped_is_idle (b : Button) (t : Z) (s : State) :
  Activity_eqb (buttonActivity b) (currentActivity s) = true ->
  currentActivity (onClick b t s) = null.
Proof.
  intro He. unfold onClick, handleActivityClick. rewrite He. reflexivity.
Qed.

(** X18. After any click the live clock is defined, whatever the history:
    a click that stops the active activity resets it to "00:00.000"; a click
    that starts one makes it count from that click's own timestamp, and what
    it shows is the duration the exporter would print for the same span, with
    the minutes padded to two digits. *)
Theorem live_clock_counts_from_the_click
    (s : State) (b : Button) (t now : Z) :
  (t <= now)%Z ->
  elapsedTime (onClick b t s) now
  = if Activity_eqb (buttonActivity b) (currentActivity s)
    then Some "00:00.000"
    else Some ((if ((now - t) / 60000 <? 10)%Z then "0" else "")
               ++ formatDuration t now).
Proof.
  intro Hle. destruct (Activity_eqb _ _) eqn:E.
  - unfold elapsedTime. now rewrite (stopped_is_idle b t s E).
  - destruct (started_entry_is_last b t s E) as [Htruthy Hlast].
    unfold elapsedTime. rewrite Htruthy, Hlast. cbn [startTime].
    unfold formatDuration.
    rewrite padStart_minutes by (apply Z.div_pos; lia).
    now rewrite append_assoc.
Qed.

Lemma live_clock_witness :
  elapsedTime
    (onClick TrafficButton 61000 (run [(MovingButton, 1000)] initialState))
    746789
  = Some "11:25.789".
Proof.
  exact (live_clock_counts_from_the_click
           (run [(MovingButton, 1000)] initialState) TrafficButton
           61000 746789 ltac:(lia)).
Defined.

(** X19. For the first hundred minutes of an activity the live clock has the
    fixed shape "MM:SS.mmm": two digits of minutes, two of seconds and three
    of milliseconds of the time since the click that started it. *)
Theorem live_clock_is_fixed_width
    (s : State) (b : Button) (t now : Z) :
  Activity_eqb (buttonActivity b) (currentActivity s) = false ->
  (0 <= now - t < 6000000)%Z ->
  elapsedTime (onClick b t s) now
  = Some (twoDigits ((now - t) / 60000) ++ ":"
          ++ twoDigits ((now - t) / 1000 mod 60) ++ "."
          ++ threeDigits ((now - t) mod 1000)).
Proof.
  intros E Hd.
  destruct (started_entry_is_last b t s E) as [Htruthy Hlast].
  unfold elapsedTime. rewrite Htruthy, Hlast. cbn [startTime].
  rewrite seconds_of_duration by lia.
  rewrite (Z.rem_mod_nonneg (now - t) 1000) by lia.
  rewrite padStart_two_digits
    by (split; [apply Z.div_pos; lia | apply Z.div_lt_upper_bound; lia]).
  rewrite padStart_two_digits
    by (pose proof (Z.mod_pos_bound ((now - t) / 1000) 60); lia).
  rewrite padStart_three_digits by (apply Z.mod_pos_bound; lia).
  reflexivity.
Qed.

Lemma live_clock_is_fixed_width_witness :
  elapsedTime (onClick MovingButton 1000 initialState) 126045
  = Some "02:05.045".
Proof.
  exact (live_clock_is_fixed_width initialState MovingButton 1000 126045
           eq_refl ltac:(lia)).
Defined.

Local Close Scope string_scope.

(** ** The page *)

(** X20. The captions follow the handler: after a click on a button that
    showed "Stop ...", every button shows "Start ..." and the badge is gone;
    after a click on a button that showed "Start ...", that button alone
    shows "Stop ...", and the badge shows the same capitalised name as the
    caption.  This holds from every state. *)
Theorem click_toggles_the_caption (s : State) (b b' : Button) (t : Z) :
  let name := fun x => capitalise (activityString (buttonActivity x)) in
  let s' := onClick b t s in
  if String.eqb (buttonLabel b s) ("Stop " ++ name b)
  then buttonLabel b' s' = ("Start " ++ name b')%string /\ badge s' = None
  else buttonLabel b' s'
       = ((if Button_eqb b' b then "Stop " else "Start ") ++ name b')%string
       /\ badge s' = Some (name b).
Proof.
  destruct s as [cur log st].
  destruct b, b', cur; cbv - [map app closeEntry]; split; reflexivity.
Qed.

(** X21. The time split and the export button appear with the first click
    and stay: they are rendered exactly when the session has at least one
    click, whether or not an activity is still active. *)
Theorem time_split_shown_after_first_click (clicks : list Click) :
  showsTimeSplit (run clicks initialState) = true <-> clicks <> [].
Proof.
  unfold showsTimeSplit. rewrite Nat.ltb_lt. split.
  - intros H ->. cbn in H. lia.
  - intro Hne. destruct clicks as [|c rest]; [congruence|].
    destruct (first_entry_of_session c rest) as (e & tail & Hlog & _).
    rewrite Hlog. cbn [List.length]. lia.
Qed.

(** ** Handing the file over *)

Ltac run_delivery p :=
  unfold deliver, tryBlock, tryShare, download, call, bind, ret;
  destruct (hasShare p), (canShareFiles p);
  destruct (throws p CallNewFile), (throws p CallCanShare),
           (throws p CallShare), (throws p CallCreateObjectURL),
           (throws p CallCreateElement), (throws p CallAppendChild),
           (throws p CallClick), (throws p CallRevokeObjectURL),
           (throws p CallRemoveChild);
  cbn [app In].

(** X22. Whatever the platform does, an export never ends with nothing: the
    text is shared, downloaded, or the page navigates to its data URI; and it
    is never both shared and downloaded. *)
Theorem delivery_never_drops_the_file
    (p : Platform) (encodeURIComponent : string -> string)
    (fileName csv : string) :
  let effects := deliver p encodeURIComponent fileName csv in
  (In (SharedFile fileName csv) effects
   \/ In (DownloadedFile fileName csv) effects
   \/ In (NavigatedTo (dataURI encodeURIComponent csv)) effects)
  /\ ~ (In (SharedFile fileName csv) effects
        /\ In (DownloadedFile fileName csv) effects).
Proof.
  intro effects. subst effects.
  run_delivery p; (split; [tauto | intros [H1 H2]]);
    repeat (destruct H1 as [H1|H1]; try discriminate H1);
    repeat (destruct H2 as [H2|H2]; try discriminate H2);
    try contradiction.
Qed.

(** X23. When no call throws, the file is handed over exactly once and
    nothing else happens: it is shared where the platform has the share API
    and accepts the file, and downloaded everywhere else. *)
Theorem clean_delivery_happens_once
    (p : Platform) (encodeURIComponent : string -> string)
    (fileName csv : string) :
  (forall c, throws p c = false) ->
  deliver p encodeURIComponent fileName csv
  = if hasShare p && canShareFiles p
    then [SharedFile fileName csv]
    else [DownloadedFile fileName csv].
Proof.
  intro Hclean.
  unfold deliver, tryBlock, tryShare, download, call, bind, ret.
  rewrite !Hclean.
  destruct (hasShare p), (canShareFiles p); reflexivity.
Qed.

Lemma clean_delivery_witness :
  deliver (mkPlatform true false (fun _ => false)) (fun s => s)
          "bus-timing-2026-11-02.csv" "activity_type,start_time,end_time,duration"
  = [DownloadedFile "bus-timing-2026-11-02.csv"
       "activity_type,start_time,end_time,duration"].
Proof.
  exact (clean_delivery_happens_once
           (mkPlatform true false (fun _ => false)) (fun s => s)
           "bus-timing-2026-11-02.csv"
           "activity_type,start_time,end_time,duration"
           (fun _ => eq_refl)).
Defined.

(** X24. A share that fails is not followed by the download: when the share
    API is there and accepts the file but [share] rejects (the user closes
    the sheet, say), the error is logged and the page navigates to the data
    URI, and no download is tried. *)
Theorem failed_share_skips_the_download
    (p : Platform) (encodeURIComponent : string -> string)
    (fileName csv : string) :
  hasShare p = true -> canShareFiles p = true ->
  throws p CallNewFile = false -> throws p CallCanShare = false ->
  throws p CallShare = true ->
  deliver p encodeURIComponent fileName csv
  = [LoggedError; NavigatedTo (dataURI encodeURIComponent csv)].
Proof.
  intros Hshare Hcan Hfile Hask Hreject.
  unfold deliver, tryBlock, tryShare, download, call, bind, ret.
  now rewrite Hshare, Hfile, Hask, Hcan, Hreject.
Qed.

Lemma failed_share_witness :
  deliver (mkPlatform true true
             (fun c => match c with CallShare => true | _ => false end))
          (fun s => s) "bus-timing-2026-11-02.csv" "a,b"
  = [LoggedError; NavigatedTo "data:text/csv;charset=utf-8,a,b"].
Proof.
  exact (failed_share_skips_the_download
           (mkPlatform true true
              (fun c => match c with CallShare => true | _ => false end))
           (fun s => s) "bus-timing-2026-11-02.csv" "a,b"
           eq_refl eq_refl eq_refl eq_refl eq_refl).
Defined.

(** X25. The file is handed over twice exactly when the clean-up after the
    download fails: the download and the navigation to the data URI both
    happen if and only if the anchor click completed and
    [revokeObjectURL] or [removeChild] threw afterwards. *)
Theorem late_failure_delivers_twice
    (p : Platform) (encodeURIComponent : string -> string)
    (fileName csv : string) :
  let effects := deliver p encodeURIComponent fileName csv in
  (In (DownloadedFile fileName csv) effects
   /\ In (NavigatedTo (dataURI encodeURIComponent csv)) effects)
  <-> (In (DownloadedFile fileName csv) effects
       /\ (throws p CallRevokeObjectURL = true
           \/ throws p CallRemoveChild = true)).
Proof.
  intro effects. subst effects.
  run_delivery p; split; intros [H1 H2];
    repeat (destruct H1 as [H1|H1]; try discriminate H1);
    try contradiction;
    first [ split; [now left | tauto]
          | split; [now left | now (right; right; left)]
          | exfalso;
            repeat (destruct H2 as [H2|H2]; try discriminate H2);
            contradiction ].
Qed.

(** ** The handler outside its callers *)

(** X26. The single-open-entry invariant rests on the callers: the handler's
    parameter type admits [null], and a [null] call made while an activity is
    active, from any state, leaves an open entry behind with no activity
    selected, so that the next button click leaves two open entries in the
    log. *)
Theorem null_call_leaves_two_open_entries
    (s : State) (t1 t2 : Z) (b : Button) :
  currentActivity s <> null ->
  currentActivity (handleActivityClick null t1 s) = null
  /\ openCount (timeEntries (handleActivityClick null t1 s)) = 1%nat
  /\ openCount (timeEntries (onClick b t2 (handleActivityClick null t1 s)))
     = 2%nat.
Proof.
  intro Hactive.
  assert (Hnull : handleActivityClick null t1 s
                  = mkState null
                      (map (closeEntry t1) (timeEntries s)
                       ++ [mkEntry null t1 None])
                      (match st_startTime s with
                       | None => Some t1 | Some t => Some t end)).
  { unfold handleActivityClick.
    destruct (currentActivity s); [reflexivity .. | congruence]. }
  rewrite Hnull. cbn [currentActivity timeEntries].
  split; [reflexivity|]. split.
  - rewrite openCount_app, noneOpen_count by apply noneOpen_map_close.
    reflexivity.
  - unfold onClick, handleActivityClick. cbn [currentActivity timeEntries truthy].
    replace (Activity_eqb (buttonActivity b) null) with false
      by (now destruct b).
    cbn [negb timeEntries].
    rewrite !openCount_app, noneOpen_count by apply noneOpen_map_close.
    reflexivity.
Qed.

Lemma null_call_witness :
  openCount
    (timeEntries
       (onClick TrafficButton 3000
          (handleActivityClick null 2000
             (run [(MovingButton, 1000)] initialState))))
  = 2%nat.
Proof.
  exact (proj2 (proj2 (null_call_leaves_two_open_entries
                         (run [(MovingButton, 1000)] initialState)
                         2000 3000 TrafficButton ltac:(discriminate)))).
Defined.
